(** * Local Lipschitzness estimation: [robustbench/eval/lipschitz.py]

    A shallow embedding of [box], [compute_lipschitz_batch],
    [compute_lipschitz] and [benchmark_lipschitz].

    Numbers.  Tensor entries are IEEE floats in the source.  Here an entry
    is a rational ([Q], compared with [==]); overflow and tensors with
    non-finite entries are outside the model.  The quotient
    [numerator / denominator] of the objective is modelled with the IEEE
    outcomes of a division by zero ([fval]: a finite value, an infinity or
    NaN).  The definitions [box], [fadd] and the like compute exactly; where
    a property depends on how the float type rounds, it is stated on
    [box_fl] and [compute_lipschitz_fl], which take the rounded operations
    as parameters and so hold for every rounding.

    Tensors.  A batch is a list of samples and a sample the list of its
    coordinates, which is what [torch.flatten(_, start_dim=1)] makes of it.
    Element-wise operations pair the coordinates of their arguments; every
    call in the source passes tensors of one shape.

    Effects.  The draws of [torch.randn_like] thread the state of a random
    generator; each call of the closure [f] is counted; [lips / len(dl)]
    raises on an empty loader.  The model, [F.normalize], automatic
    differentiation and [load_clean_dataset] are parameters.  Moving to a
    device and the progress bar change no value and are left out. *)

From Stdlib Require Import String ZArith QArith Qminmax Qabs Lqa List Lia Bool Arith.
Import ListNotations.

Open Scope Q_scope.

(** ** Tensors *)

Abbreviation sample := (list Q) (only parsing).
Abbreviation tensor := (list (list Q)) (only parsing).

Fixpoint zip_with {A B C : Type} (f : A -> B -> C) (l : list A) (r : list B) : list C :=
  match l, r with
  | a :: l', b :: r' => f a b :: zip_with f l' r'
  | _, _ => []
  end.

Definition tmap (f : Q -> Q) (x : tensor) : tensor := map (map f) x.
Definition tmap2 (f : Q -> Q -> Q) (a b : tensor) : tensor :=
  zip_with (zip_with f) a b.

Definition zeros_like (x : tensor) : tensor := tmap (fun _ => 0) x.
Definition ones_like (x : tensor) : tensor := tmap (fun _ => 1) x.
(** [x - eps] and [x + eps] with a Python scalar [eps]. *)
Definition sub_scalar (x : tensor) (eps : Q) : tensor := tmap (fun v => v - eps) x.
Definition add_scalar (x : tensor) (eps : Q) : tensor := tmap (fun v => v + eps) x.
(** [step_size * t]. *)
Definition scale (c : Q) (t : tensor) : tensor := tmap (fun v => c * v) t.
Definition tadd : tensor -> tensor -> tensor := tmap2 Qplus.
Definition tsub : tensor -> tensor -> tensor := tmap2 Qminus.
(** [torch.max(a, b)] and [torch.min(a, b)] on two tensors. *)
Definition torch_max : tensor -> tensor -> tensor := tmap2 Qmax.
Definition torch_min : tensor -> tensor -> tensor := tmap2 Qmin.

(** The coordinate [j] of sample [i], when the tensor has one. *)
Definition coord (t : tensor) (i j : nat) : option Q :=
  match nth_error t i with
  | Some s => nth_error s j
  | None => None
  end.

Definition same_shape (a b : tensor) : Prop :=
  Forall2 (fun s r : sample => length s = length r) a b.

(** Numeric equality of tensors, entry by entry. *)
Definition teq (a b : tensor) : Prop := Forall2 (Forall2 Qeq) a b.

(** ** The projector *)

Definition box (x_prime x : tensor) (eps : Q) : tensor :=
  let min_x := torch_max (zeros_like x) (sub_scalar x eps) in
  let max_x := torch_min (ones_like x) (add_scalar x eps) in
  torch_max min_x (torch_min x_prime max_x).

(** What [box] computes at one coordinate. *)
Definition lower (v eps : Q) : Q := Qmax 0 (v - eps).
Definition upper (v eps : Q) : Q := Qmin 1 (v + eps).
Definition box_coord (p v eps : Q) : Q := Qmax (lower v eps) (Qmin p (upper v eps)).
(** ... and on one sample. *)
Definition box_row (eps : Q) (ps vs : sample) : sample :=
  zip_with (fun p v => box_coord p v eps) ps vs.

(** [box] with the arithmetic of the tensor's float type.  The source
    computes [x - eps] and [x + eps] in that type, and each result is
    rounded: [sub] and [add] stand for the two rounded operations, whatever
    the rounding is.  [torch.max] and [torch.min] return one of their
    arguments and round nothing.  With the exact [Qminus] and [Qplus] this
    is [box]. *)
Definition box_fl (sub add : Q -> Q -> Q) (x_prime x : tensor) (eps : Q) : tensor :=
  let min_x := torch_max (zeros_like x) (tmap (fun v => sub v eps) x) in
  let max_x := torch_min (ones_like x) (tmap (fun v => add v eps) x) in
  torch_max min_x (torch_min x_prime max_x).

(** The bounds as the source computes them at one coordinate. *)
Definition lower_fl (sub : Q -> Q -> Q) (v eps : Q) : Q := Qmax 0 (sub v eps).
Definition upper_fl (add : Q -> Q -> Q) (v eps : Q) : Q := Qmin 1 (add v eps).

(** ** Objective values

    The value of [numerator / denominator] and of what is computed from it:
    a finite number, or what IEEE arithmetic gives when the denominator is
    zero. *)

Inductive fval : Type :=
| Fin (q : Q)
| PInf
| NInf
| NaN.

(** [n / d] on two finite numbers. *)
Definition fdiv (n d : Q) : fval :=
  if Qeq_bool d 0 then
    match n ?= 0 with
    | Gt => PInf
    | Lt => NInf
    | Eq => NaN
    end
  else Fin (n / d).

Definition fadd (a b : fval) : fval :=
  match a, b with
  | NaN, _ | _, NaN => NaN
  | PInf, NInf | NInf, PInf => NaN
  | PInf, _ | _, PInf => PInf
  | NInf, _ | _, NInf => NInf
  | Fin p, Fin q => Fin (p + q)
  end.

(** [a / n] for a count [n] that is not zero. *)
Definition fdiv_count (a : fval) (n : nat) : fval :=
  match a with
  | Fin q => Fin (q / inject_Z (Z.of_nat n))
  | _ => a
  end.

(** The same two operations with the rounding of Python's floats: [radd]
    and [rdiv] stand for the rounded sum and the rounded quotient of two
    numbers, whatever the rounding is.  With the exact [Qplus] and [Qdiv]
    they are [fadd] and [fdiv_count]. *)
Definition fadd_fl (radd : Q -> Q -> Q) (a b : fval) : fval :=
  match a, b with
  | NaN, _ | _, NaN => NaN
  | PInf, NInf | NInf, PInf => NaN
  | PInf, _ | _, PInf => PInf
  | NInf, _ | _, NInf => NInf
  | Fin p, Fin q => Fin (radd p q)
  end.

Definition fdiv_count_fl (rdiv : Q -> Q -> Q) (a : fval) (n : nat) : fval :=
  match a with
  | Fin q => Fin (rdiv q (inject_Z (Z.of_nat n)))
  | _ => a
  end.

(** The comparisons [a < b] and [a <= b]: false when either side is NaN. *)
Definition flt (a b : fval) : bool :=
  match a, b with
  | NaN, _ | _, NaN => false
  | Fin p, Fin q => negb (Qle_bool q p)
  | NInf, NInf => false
  | NInf, _ => true
  | _, NInf => false
  | PInf, _ => false
  | _, PInf => true
  end.

Definition fle (a b : fval) : bool :=
  match a, b with
  | NaN, _ | _, NaN => false
  | Fin p, Fin q => Qle_bool p q
  | NInf, _ => true
  | _, NInf => false
  | _, PInf => true
  | PInf, _ => false
  end.

Definition fgt (a b : fval) : bool := flt b a.
Definition fge (a b : fval) : bool := fle b a.

(** Python's builtin [max(a, b)]: the first argument unless the second is
    greater. *)
Definition py_max (a b : fval) : fval := if fgt b a then b else a.

Definition fsum (l : list fval) : fval := fold_left fadd l (Fin 0).

(** [t.mean()] of a vector: NaN on an empty one. *)
Definition mean (l : list fval) : fval :=
  match l with
  | [] => NaN
  | _ => fdiv_count (fsum l) (length l)
  end.

(** [torch.norm(t, p=1, dim=1)] and [torch.norm(t, p=float("inf"), dim=1)]. *)
Definition norm_1 (s : sample) : Q := fold_right (fun v acc => Qabs v + acc) 0 s.
Definition norm_inf (s : sample) : Q := fold_right (fun v acc => Qmax (Qabs v) acc) 0 s.

(** ** Effects: the random generator, the count of objective evaluations,
    exceptions *)

Inductive exn : Type :=
| ZeroDivisionError
| ModelNotInEvalMode.

Inductive outcome (A : Type) : Type :=
| Return (a : A)
| Raise (e : exn).

Arguments Return {A} a.
Arguments Raise {A} e.

Section Estimator.

(** The state of torch's random generator and one draw of
    [torch.randn_like]. *)
Variable RNG : Type.
Variable randn_like : RNG -> tensor -> tensor * RNG.
(** [F.normalize] on a flattened output. *)
Variable normalize : tensor -> tensor.
(** Reverse-mode differentiation: [y.backward()] on the scalar [y = g(p)]
    followed by [p.grad.sign()]. *)
Variable sign_grad : (tensor -> fval) -> tensor -> tensor.

Record world : Type := mkWorld {
  generator : RNG;
  evaluations : nat
}.

Definition M (A : Type) : Type := world -> outcome A * world.

Definition ret {A} (a : A) : M A := fun w => (Return a, w).

Definition bind {A B} (c : M A) (k : A -> M B) : M B :=
  fun w =>
    match c w with
    | (Return a, w') => k a w'
    | (Raise e, w') => (Raise e, w')
    end.

Definition raise {A} (e : exn) : M A := fun w => (Raise e, w).

Notation "x <- c ;; k" := (bind c (fun x => k))
  (at level 61, c at next level, right associativity).
Notation "' pat <- c ;; k" := (bind c (fun x => match x with pat => k end))
  (at level 61, pat pattern, c at next level, right associativity).

Definition draw_randn_like (x : tensor) : M tensor :=
  fun w =>
    let (noise, g) := randn_like (generator w) x in
    (Return noise, mkWorld g (evaluations w)).

Definition count_evaluation : M unit :=
  fun w => (Return tt, mkWorld (generator w) (S (evaluations w))).

(** ** The batch estimator *)

Definition layer : Type := tensor -> tensor.

(** The closure [model_]. *)
Definition model_ (model : layer) (l2_normalize : bool) : layer :=
  if l2_normalize then fun x_ => normalize (model x_) else fun x_ => model x_.

Definition numerator (model_x model_x_prime : tensor) : list Q :=
  map norm_1 (tsub model_x model_x_prime).

Definition denominator (x x_prime_ : tensor) : list Q :=
  map norm_inf (tsub x x_prime_).

(** The value of [f(x_prime_)]. *)
Definition objective (m : layer) (model_x x x_prime_ : tensor) : list fval :=
  zip_with fdiv (numerator model_x (m x_prime_)) (denominator x x_prime_).

(** One call of the closure [f]. *)
Definition f (m : layer) (model_x x x_prime_ : tensor) : M (list fval) :=
  _ <- count_evaluation ;;
  ret (objective m model_x x x_prime_).

(** [box(x + step_size * noise, x, eps)]. *)
Definition initial_x_prime (x : tensor) (eps step_size : Q) (noise : tensor) : tensor :=
  box (tadd x (scale step_size noise)) x eps.

(** The body of [for i in range(n_steps)], on the loop's variables
    [max_lips] and [x_prime]. *)
Fixpoint ascent (m : layer) (model_x x : tensor) (eps step_size : Q)
  (n_steps : nat) (max_lips : fval) (x_prime : tensor) : M (fval * tensor) :=
  match n_steps with
  | O => ret (max_lips, x_prime)
  | S n =>
      v <- f m model_x x x_prime ;;
      let y := mean v in
      let grad_sign := sign_grad (fun p => mean (objective m model_x x p)) x_prime in
      let max_lips := py_max max_lips y in
      let x_prime := box (tadd x_prime (scale step_size grad_sign)) x eps in
      ascent m model_x x eps step_size n max_lips x_prime
  end.

Definition compute_lipschitz_batch (model : layer) (x : tensor) (eps step_size : Q)
  (n_steps : nat) (l2_normalize : bool) : M fval :=
  let m := model_ model l2_normalize in
  let model_x := m x in
  noise <- draw_randn_like x ;;
  let x_prime := initial_x_prime x eps step_size noise in
  v <- f m model_x x x_prime ;;
  let max_lips := mean v in
  '(max_lips, x_prime) <- ascent m model_x x eps step_size n_steps max_lips x_prime ;;
  v <- f m model_x x x_prime ;;
  ret (py_max max_lips (mean v)).

(** ** The dataset aggregator *)

Section Aggregator.

Variable label : Type.

Definition batch : Type := (tensor * list label)%type.

(** The body of [for i, (x, _) in enumerate(prog_bar)] on the accumulator
    [lips]; the progress bar's postfix is display only. *)
Fixpoint batches_loop (model : layer) (eps step_size : Q) (n_steps : nat)
  (l2_normalize : bool) (dl : list batch) (lips : fval) : M fval :=
  match dl with
  | [] => ret lips
  | (x, _) :: rest =>
      batch_lips <- compute_lipschitz_batch model x eps step_size n_steps l2_normalize ;;
      batches_loop model eps step_size n_steps l2_normalize rest (fadd lips batch_lips)
  end.

Definition compute_lipschitz (model : layer) (dl : list batch) (eps step_size : Q)
  (n_steps : nat) (l2_normalize : bool) : M fval :=
  lips <- batches_loop model eps step_size n_steps l2_normalize dl (Fin 0) ;;
  match length dl with
  | O => raise ZeroDivisionError
  | n => ret (fdiv_count lips n)
  end.

(** The aggregator with the rounding of its accumulator: [lips += batch_lips]
    is a rounded sum of Python floats and [lips / len(dl)] a rounded
    quotient. *)
Fixpoint batches_loop_fl (radd : Q -> Q -> Q) (model : layer) (eps step_size : Q)
  (n_steps : nat) (l2_normalize : bool) (dl : list batch) (lips : fval) : M fval :=
  match dl with
  | [] => ret lips
  | (x, _) :: rest =>
      batch_lips <- compute_lipschitz_batch model x eps step_size n_steps l2_normalize ;;
      batches_loop_fl radd model eps step_size n_steps l2_normalize rest
        (fadd_fl radd lips batch_lips)
  end.

Definition compute_lipschitz_fl (radd rdiv : Q -> Q -> Q) (model : layer)
  (dl : list batch) (eps step_size : Q) (n_steps : nat) (l2_normalize : bool)
  : M fval :=
  lips <- batches_loop_fl radd model eps step_size n_steps l2_normalize dl (Fin 0) ;;
  match length dl with
  | O => raise ZeroDivisionError
  | n => ret (fdiv_count_fl rdiv lips n)
  end.

(** The aggregator in the specification's words: the estimates of the
    batches, taken in order, then their sum divided by their number. *)
Fixpoint batch_estimates (model : layer) (eps step_size : Q) (n_steps : nat)
  (l2_normalize : bool) (dl : list batch) : M (list fval) :=
  match dl with
  | [] => ret []
  | (x, _) :: rest =>
      e <- compute_lipschitz_batch model x eps step_size n_steps l2_normalize ;;
      es <- batch_estimates model eps step_size n_steps l2_normalize rest ;;
      ret (e :: es)
  end.

(** ** The layer-wise driver *)

(** [torch.utils.data.DataLoader(dataset, batch_size, drop_last=True)]: the
    batch sampler fills a batch in order and yields it when it is full; what
    is left at the end is dropped.  (torch refuses a [batch_size] of 0 when
    the loader is built; here such a loader yields no batch.) *)
Fixpoint batch_sampler {A : Type} (batch_size : nat) (cur : list A) (l : list A)
  : list (list A) :=
  match l with
  | [] => []
  | a :: l' =>
      let cur := cur ++ [a] in
      if (length cur =? batch_size)%nat
      then cur :: batch_sampler batch_size [] l'
      else batch_sampler batch_size cur l'
  end.

(** [TensorDataset(x, y)] pairs the samples with their labels, and the
    loader collates a batch of pairs back into two tensors. *)
Definition TensorDataset (x : tensor) (y : list label) : list (sample * label) :=
  combine x y.

Definition DataLoader (dataset : list (sample * label)) (batch_size : nat) : list batch :=
  map (fun b => (map fst b, map snd b)) (batch_sampler batch_size [] dataset).

(** [nn.Sequential] over a list of layers: they are applied in order. *)
Definition Sequential (layers : list layer) : layer :=
  fun x => fold_left (fun acc l => l acc) layers x.

Variable BenchmarkDataset : Type.
Variable load_clean_dataset : BenchmarkDataset -> nat -> string -> tensor * list label.

(** The body of [for layer in model.get_lipschitz_layers()] on the loop's
    variables [net] and [lips]; [nn.Sequential] of [net]'s layers and [layer]
    is [net ++ [layer]]. *)
Fixpoint layers_loop (dl : list batch) (eps step_size : Q) (n_steps : nat)
  (l2_normalize : bool) (layers : list layer) (net : list layer) (lips : list fval)
  : M (list fval) :=
  match layers with
  | [] => ret lips
  | l :: rest =>
      let net := net ++ [l] in
      layer_lips <- compute_lipschitz (Sequential net) dl eps step_size n_steps l2_normalize ;;
      layers_loop dl eps step_size n_steps l2_normalize rest net (lips ++ [layer_lips])
  end.

(** A [LipschitzModel]: whether it is in training mode, and the layers that
    [model.get_lipschitz_layers()] lists. *)
Record LipschitzModel : Type := mkModel {
  training : bool;
  get_lipschitz_layers : list layer
}.

(** Modelled from the spec: [check_model_eval] of [robustbench.eval.utils],
    which is not under src/.  It verifies that the model is in evaluation
    mode; a model that is not is a usage error, fatal and not recovered. *)
Definition check_model_eval (model : LipschitzModel) : M unit :=
  if training model then raise ModelNotInEvalMode else ret tt.

(** The dataset enters through [load_clean_dataset], which this file takes
    as given. *)
Definition benchmark_lipschitz (model : LipschitzModel) (n_examples : nat)
  (dataset : BenchmarkDataset) (data_dir : string) (batch_size : nat)
  (eps step_size : Q) (n_steps : nat) (l2_normalize : bool) : M (list fval) :=
  _ <- check_model_eval model ;;
  let (x, y) := load_clean_dataset dataset n_examples data_dir in
  let dl := DataLoader (TensorDataset x y) batch_size in
  layers_loop dl eps step_size n_steps l2_normalize (get_lipschitz_layers model) [] [].

End Aggregator.

End Estimator.

Arguments mkWorld {RNG} generator evaluations.
Arguments generator {RNG} w.
Arguments evaluations {RNG} w.
Arguments ret {RNG A} a w.
Arguments bind {RNG A B} c k w.
Arguments raise {RNG A} e w.
Arguments f {RNG} m model_x x x_prime_ w.
Arguments ascent {RNG} sign_grad m model_x x eps step_size n_steps max_lips x_prime w.
Arguments compute_lipschitz_batch {RNG} randn_like normalize sign_grad
  model x eps step_size n_steps l2_normalize w.
Arguments batches_loop {RNG} randn_like normalize sign_grad {label}
  model eps step_size n_steps l2_normalize dl lips w.
Arguments batch_estimates {RNG} randn_like normalize sign_grad {label}
  model eps step_size n_steps l2_normalize dl w.
Arguments compute_lipschitz {RNG} randn_like normalize sign_grad {label}
  model dl eps step_size n_steps l2_normalize w.
Arguments batches_loop_fl {RNG} randn_like normalize sign_grad {label}
  radd model eps step_size n_steps l2_normalize dl lips w.
Arguments compute_lipschitz_fl {RNG} randn_like normalize sign_grad {label}
  radd rdiv model dl eps step_size n_steps l2_normalize w.
Arguments batch_sampler {A} batch_size cur l.
Arguments TensorDataset {label} x y.
Arguments DataLoader {label} dataset batch_size.
Arguments layers_loop {RNG} randn_like normalize sign_grad {label}
  dl eps step_size n_steps l2_normalize layers net lips w.
Arguments check_model_eval {RNG} model w.
Arguments benchmark_lipschitz {RNG} randn_like normalize sign_grad {label BenchmarkDataset}
  load_clean_dataset model n_examples dataset data_dir batch_size
  eps step_size n_steps l2_normalize w.

(** ** Instances for the concrete runs *)

(** A generator whose every draw is the all-ones tensor, a differentiation
    that finds a positive slope everywhere, no normalisation, and a dataset
    of two one-pixel images. *)
Definition ones_noise (g : unit) (x : tensor) : tensor * unit := (ones_like x, g).
Definition no_normalize (t : tensor) : tensor := t.
Definition ones_sign (g : tensor -> fval) (p : tensor) : tensor := ones_like p.
Definition identity : layer := fun t => t.
Definition double : layer := fun t => scale 2 t.
Definition two_images (d : unit) (n_examples : nat) (data_dir : string)
  : tensor * list nat :=
  (firstn n_examples [[1 # 2]; [1 # 4]], firstn n_examples [0%nat; 1%nat]).
Definition start : world unit := mkWorld tt 0.

(** ** Predicates for the further properties *)


(** The point that one iteration of the loop moves to. *)
Definition next_point (sign_grad : (tensor -> fval) -> tensor -> tensor)
  (m : layer) (model_x x : tensor) (eps step_size : Q) (p : tensor) : tensor :=
  box (tadd p (scale step_size
                 (sign_grad (fun q => mean (objective m model_x x q)) p))) x eps.

(** A value that is a number. *)
Definition finite (v : fval) : Prop := exists q, v = Fin q.

(** A value that is neither a negative number nor minus infinity. *)
Definition not_negative (v : fval) : Prop :=
  match v with
  | Fin q => 0 <= q
  | NInf => False
  | PInf | NaN => True
  end.

(** ** Facts on lists and coordinates *)

Lemma nth_error_zip_with {A B C} (f : A -> B -> C) l r n :
  nth_error (zip_with f l r) n =
  match nth_error l n, nth_error r n with
  | Some a, Some b => Some (f a b)
  | _, _ => None
  end.
Proof.
  revert r n; induction l as [|a l IH]; intros [|b r] [|n]; simpl; auto.
  destruct (nth_error l n); reflexivity.
Qed.

Lemma coord_tmap f t i j :
  coord (tmap f t) i j = option_map f (coord t i j).
Proof.
  unfold coord, tmap. revert i.
  induction t as [|s t IH]; intros [|i]; simpl; auto using nth_error_map.
Qed.

Lemma coord_tmap2 f a b i j :
  coord (tmap2 f a b) i j =
  match coord a i j, coord b i j with
  | Some u, Some v => Some (f u v)
  | _, _ => None
  end.
Proof.
  unfold coord, tmap2. revert b i.
  induction a as [|s a IH]; intros [|r b] [|i]; simpl; auto using nth_error_zip_with.
  - destruct (nth_error s j); reflexivity.
  - destruct (nth_error a i) as [s'|]; [destruct (nth_error s' j)|]; reflexivity.
Qed.

Lemma coord_box x_prime x eps i j :
  coord (box x_prime x eps) i j =
  match coord x_prime i j, coord x i j with
  | Some p, Some v => Some (box_coord p v eps)
  | _, _ => None
  end.
Proof.
  unfold box, torch_max, torch_min, zeros_like, ones_like, sub_scalar, add_scalar.
  rewrite !coord_tmap2, !coord_tmap.
  destruct (coord x i j) as [v|], (coord x_prime i j) as [p|]; reflexivity.
Qed.

(** Case analysis on every [Qmax] and [Qmin] in sight, then linear arithmetic. *)
Ltac minmax_atom a b spec t :=
  let m := fresh "m" in
  let E := fresh "E" in
  pose proof (spec a b) as E; set (m := t) in *; clearbody m;
  destruct E as [[? ?]|[? ?]].

Ltac minmax_cases :=
  repeat match goal with
  | |- context [Qmax ?a ?b] => minmax_atom a b Q.max_spec (Qmax a b)
  | |- context [Qmin ?a ?b] => minmax_atom a b Q.min_spec (Qmin a b)
  | _ : context [Qmax ?a ?b] |- _ => minmax_atom a b Q.max_spec (Qmax a b)
  | _ : context [Qmin ?a ?b] |- _ => minmax_atom a b Q.min_spec (Qmin a b)
  end.

Ltac qminmax := unfold box_coord, lower, upper in *; minmax_cases; try lra.

Ltac qabs_cases :=
  repeat match goal with
  | |- context [Qabs ?a] =>
      let m := fresh "d" in
      pattern (Qabs a); apply Qabs_case; intro
  end.

Lemma box_coord_idem p v eps :
  box_coord (box_coord p v eps) v eps == box_coord p v eps.
Proof. qminmax. Qed.

Lemma box_coord_zero_radius p v :
  0 <= v -> box_coord p v 0 == v.
Proof. intros Hv. qminmax. Qed.

Lemma box_rows x_prime x eps :
  box x_prime x eps = zip_with (box_row eps) x_prime x.
Proof.
  unfold box, torch_max, torch_min, zeros_like, ones_like, sub_scalar, add_scalar,
    tmap2, tmap.
  revert x; induction x_prime as [|ps x_prime IH]; intros [|vs x]; simpl;
    try reflexivity.
  f_equal; [| apply IH].
  clear. unfold box_row.
  revert vs; induction ps as [|p ps IH]; intros [|v vs]; simpl;
    try reflexivity.
  rewrite IH. reflexivity.
Qed.

Lemma box_row_idem eps ps vs :
  Forall2 Qeq (box_row eps (box_row eps ps vs) vs) (box_row eps ps vs).
Proof.
  unfold box_row. revert vs; induction ps as [|p ps IH]; intros [|v vs]; simpl;
    constructor; [apply box_coord_idem | apply IH].
Qed.

Lemma box_row_zero_radius ps vs :
  length ps = length vs -> Forall (fun v => 0 <= v) vs ->
  Forall2 Qeq (box_row 0 ps vs) vs.
Proof.
  unfold box_row. revert vs; induction ps as [|p ps IH]; intros [|v vs] Hl Hv;
    simpl in *; try discriminate; constructor.
  - apply box_coord_zero_radius. now inversion Hv.
  - apply IH; [congruence | now inversion Hv].
Qed.

(** ** The projector: C1, C3, C4 *)

Lemma coord_box_fl sub add x_prime x eps i j :
  coord (box_fl sub add x_prime x eps) i j =
  match coord x_prime i j, coord x i j with
  | Some p, Some v => Some (Qmax (lower_fl sub v eps) (Qmin p (upper_fl add v eps)))
  | _, _ => None
  end.
Proof.
  unfold box_fl, torch_max, torch_min, zeros_like, ones_like.
  rewrite !coord_tmap2, !coord_tmap.
  destruct (coord x i j) as [v|], (coord x_prime i j) as [p|]; reflexivity.
Qed.

Lemma box_fl_exact x_prime x eps : box_fl Qminus Qplus x_prime x eps = box x_prime x eps.
Proof. reflexivity. Qed.

(** A clamp into an interval that is not empty lands in it, on the point
    nearest to the candidate. *)
Lemma clamp_closest lo hi p :
  lo <= hi ->
  lo <= Qmax lo (Qmin p hi) <= hi /\
  (forall y, lo <= y <= hi -> Qabs (p - Qmax lo (Qmin p hi)) <= Qabs (p - y)) /\
  (forall y, lo <= y <= hi ->
             Qabs (p - y) <= Qabs (p - Qmax lo (Qmin p hi)) ->
             y == Qmax lo (Qmin p hi)).
Proof.
  intros H. split; [split; minmax_cases; lra|].
  split; intros y [H1 H2]; qabs_cases; minmax_cases; lra.
Qed.

(** The computed interval is not empty on the data domain, for a rounding
    that moves [x - eps] no higher than [x] and [x + eps] no lower. *)
Lemma computed_interval_nonempty (sub add : Q -> Q -> Q) v eps :
  sub v eps <= v -> v <= add v eps -> 0 <= v <= 1 ->
  lower_fl sub v eps <= upper_fl add v eps.
Proof. intros H1 H2 [H3 H4]. unfold lower_fl, upper_fl. minmax_cases; lra. Qed.

(** C1, amended.  For every candidate [x_prime], reference [x] and radius
    [eps], with [x - eps] and [x + eps] rounded as the tensor's float type
    rounds them, a coordinate of [box] at which the computed bounds
    [lower = max(0, fl(x - eps))] and [upper = min(1, fl(x + eps))] satisfy
    [lower <= upper] (as they do for [x] in [[0,1]] and [eps >= 0]) lies
    between these two bounds, and is the point of [[lower, upper]] closest to
    the candidate's coordinate: no point of the interval is nearer, and a
    point as near is that point. *)
Theorem box_fl_containment_closest (sub add : Q -> Q -> Q) (x_prime x : tensor)
  (eps : Q) (i j : nat) (p v : Q) :
  coord x_prime i j = Some p ->
  coord x i j = Some v ->
  lower_fl sub v eps <= upper_fl add v eps ->
  exists out,
    coord (box_fl sub add x_prime x eps) i j = Some out /\
    lower_fl sub v eps <= out <= upper_fl add v eps /\
    (forall y, lower_fl sub v eps <= y <= upper_fl add v eps ->
               Qabs (p - out) <= Qabs (p - y)) /\
    (forall y, lower_fl sub v eps <= y <= upper_fl add v eps ->
               Qabs (p - y) <= Qabs (p - out) -> y == out).
Proof.
  intros Hp Hv Hne.
  eexists. rewrite coord_box_fl, Hp, Hv.
  split; [reflexivity|].
  now apply clamp_closest.
Qed.

(** C3.  The projector is idempotent: projecting a projected tensor again,
    on the same reference and radius, gives the same entries. *)
Theorem box_idempotent (x_prime x : tensor) (eps : Q) :
  teq (box (box x_prime x eps) x eps) (box x_prime x eps).
Proof.
  rewrite !box_rows. unfold teq.
  revert x; induction x_prime as [|ps x_prime IH]; intros [|vs x]; simpl;
    constructor; [apply box_row_idem | apply IH].
Qed.

(** C4, amended.  With radius 0 the projector returns the reference: for
    every candidate [x_prime] and every reference [x] of the same shape whose
    coordinates are not negative (every [x] of [[0,1]] is such),
    [box x_prime x 0] equals [x] entry by entry. *)
Theorem box_zero_radius (x_prime x : tensor) :
  same_shape x_prime x ->
  Forall (Forall (fun v => 0 <= v)) x ->
  teq (box x_prime x 0) x.
Proof.
  rewrite box_rows. unfold teq, same_shape.
  intros Hs; induction Hs as [|ps vs x_prime x Hl Hs IH]; intros Hx; simpl;
    constructor.
  - apply box_row_zero_radius; [exact Hl | now inversion Hx].
  - apply IH. now inversion Hx.
Qed.

(** ** Objective values: sums and order *)

(** On numbers [fsum] is the sum, taken from the left. *)
Lemma fold_fadd_Fin qs : forall acc,
  fold_left fadd (map Fin qs) (Fin acc) = Fin (fold_left Qplus qs acc).
Proof. induction qs as [|q qs IH]; intros acc; simpl; [reflexivity | apply IH]. Qed.

Lemma fsum_Fin qs : fsum (map Fin qs) = Fin (fold_left Qplus qs 0).
Proof. apply fold_fadd_Fin. Qed.

Lemma fge_refl a : a <> NaN -> fge a a = true.
Proof.
  destruct a; unfold fge, fle; try congruence; intros _.
  apply Qle_bool_iff, Qle_refl.
Qed.

Lemma flt_fle a b : flt a b = true -> fle a b = true.
Proof.
  destruct a, b; simpl; try congruence.
  rewrite negb_true_iff. intros H. apply Qle_bool_iff.
  apply Qlt_le_weak, Qnot_le_lt. intros Hle.
  apply Qle_bool_iff in Hle. congruence.
Qed.

Lemma fle_trans a b c : fle a b = true -> fle b c = true -> fle a c = true.
Proof.
  destruct a, b, c; simpl; try congruence.
  rewrite !Qle_bool_iff. apply Qle_trans.
Qed.

Lemma fle_not_flt a b : fle a b = true -> flt b a = false.
Proof.
  destruct a, b; simpl; try congruence.
  intros H. now rewrite H.
Qed.

Lemma flt_not_nan a b : flt a b = true -> b <> NaN.
Proof. destruct a, b; simpl; congruence. Qed.

Lemma py_max_same a : py_max a a = a.
Proof. unfold py_max. destruct (fgt a a); reflexivity. Qed.

(** A running maximum that is a number stays one and does not decrease. *)
Lemma py_max_keeps a b :
  a <> NaN -> py_max a b <> NaN /\ fge (py_max a b) a = true.
Proof.
  intros Ha. unfold py_max, fgt.
  destruct (flt a b) eqn:E.
  - split; [now apply flt_not_nan in E | now apply flt_fle].
  - split; [exact Ha | now apply fge_refl].
Qed.

(** A running maximum that starts as NaN stays NaN. *)
Lemma py_max_nan b : py_max NaN b = NaN.
Proof. unfold py_max, fgt. destruct b; reflexivity. Qed.

(** ** The batch estimator: C5, C6, C10 *)

Section EstimatorFacts.

Context {RNG : Type}.
Variable randn_like : RNG -> tensor -> tensor * RNG.
Variable normalize : tensor -> tensor.
Variable sign_grad : (tensor -> fval) -> tensor -> tensor.

(** A call of [f] returns the objective and counts as one evaluation. *)
Lemma f_run m model_x x x_prime (w : world RNG) :
  f m model_x x x_prime w =
  (Return (objective m model_x x x_prime),
   mkWorld (generator w) (S (evaluations w))).
Proof. reflexivity. Qed.

(** The loop returns; it evaluates the objective once per iteration, leaves
    the generator alone, and its running maximum never decreases. *)
Lemma ascent_run m model_x x eps step_size n_steps :
  forall max_lips x_prime (w : world RNG),
  exists max_lips' x_prime',
    ascent sign_grad m model_x x eps step_size n_steps max_lips x_prime w =
    (Return (max_lips', x_prime'),
     mkWorld (generator w) (n_steps + evaluations w)) /\
    (max_lips <> NaN -> max_lips' <> NaN /\ fge max_lips' max_lips = true) /\
    (max_lips = NaN -> max_lips' = NaN).
Proof.
  induction n_steps as [|n IH]; intros max_lips x_prime w.
  - exists max_lips, x_prime. destruct w as [g e]. simpl.
    repeat split; auto. now apply fge_refl.
  - simpl ascent. unfold bind at 1. rewrite f_run.
    set (y := mean (objective m model_x x x_prime)).
    set (x_next := box _ x eps).
    destruct (IH (py_max max_lips y) x_next
                (mkWorld (generator w) (S (evaluations w))))
      as (ml & xp & Hrun & Hnum & Hnan).
    exists ml, xp. rewrite Hrun. simpl.
    split; [now rewrite Nat.add_succ_r|]. split.
    + intros Hm. destruct (py_max_keeps max_lips y Hm) as [H1 H2].
      destruct (Hnum H1) as [H3 H4]. split; [exact H3|].
      unfold fge in *. eapply fle_trans; eassumption.
    + intros ->. apply Hnan, py_max_nan.
Qed.

(** A run of the batch estimator returns, draws once from the generator
    and leaves a count that the loops around it add up. *)
Lemma compute_lipschitz_batch_run model x eps step_size n_steps l2_normalize
  (w : world RNG) :
  exists r,
    compute_lipschitz_batch randn_like normalize sign_grad
      model x eps step_size n_steps l2_normalize w =
    (Return r,
     mkWorld (snd (randn_like (generator w) x)) (evaluations w + (n_steps + 2))).
Proof.
  unfold compute_lipschitz_batch, bind, draw_randn_like.
  destruct (randn_like (generator w) x) as [noise g]. simpl snd.
  rewrite f_run. simpl generator. simpl evaluations.
  destruct (ascent_run (model_ normalize model l2_normalize)
              (model_ normalize model l2_normalize x) x eps step_size n_steps
              (mean (objective (model_ normalize model l2_normalize)
                       (model_ normalize model l2_normalize x) x
                       (initial_x_prime x eps step_size noise)))
              (initial_x_prime x eps step_size noise)
              (mkWorld g (S (evaluations w))))
    as (ml & xp & Hrun & _).
  rewrite Hrun, f_run. unfold ret. simpl.
  eexists. do 2 f_equal. lia.
Qed.

(** C5, amended.  For every batch and every [n_steps], the batch estimator
    returns a value that is never less than the mean objective at the first
    (randomly initialised, projected) point, and that is greater than or
    equal to it whenever that first mean objective is a number.  (When it is
    NaN, the running maximum is NaN from start to end.) *)
Theorem batch_estimate_ge_initial model x eps step_size n_steps l2_normalize
  (w : world RNG) :
  let m := model_ normalize model l2_normalize in
  let noise := fst (randn_like (generator w) x) in
  let initial := mean (objective m (m x) x (initial_x_prime x eps step_size noise)) in
  exists r w',
    compute_lipschitz_batch randn_like normalize sign_grad
      model x eps step_size n_steps l2_normalize w = (Return r, w') /\
    flt r initial = false /\
    (initial <> NaN -> fge r initial = true) /\
    (initial = NaN -> r = NaN).
Proof.
  intros m noise initial.
  unfold compute_lipschitz_batch, bind, draw_randn_like.
  fold m. subst noise initial.
  destruct (randn_like (generator w) x) as [noise g]. simpl fst.
  rewrite f_run. simpl generator. simpl evaluations.
  set (x0 := initial_x_prime x eps step_size noise).
  set (initial := mean (objective m (m x) x x0)).
  destruct (ascent_run m (m x) x eps step_size n_steps initial x0
              (mkWorld g (S (evaluations w))))
    as (ml & xp & Hrun & Hnum & Hnan).
  rewrite Hrun, f_run. unfold ret.
  eexists _, _. split; [reflexivity|].
  assert (Hge : initial <> NaN ->
                fge (py_max ml (mean (objective m (m x) x xp))) initial = true).
  { intros Hi. destruct (Hnum Hi) as [H1 H2].
    destruct (py_max_keeps ml (mean (objective m (m x) x xp)) H1) as [_ H3].
    unfold fge in *. eapply fle_trans; eassumption. }
  assert (Hn : initial = NaN -> py_max ml (mean (objective m (m x) x xp)) = NaN).
  { intros Hi. rewrite (Hnan Hi). apply py_max_nan. }
  repeat split; auto.
  destruct initial eqn:E; try (apply fle_not_flt, Hge; congruence).
  now destruct (py_max _ _).
Qed.

(** C6.  For every batch and every [n_steps], a run of the batch estimator
    evaluates the objective [f] exactly [n_steps + 2] times. *)
Theorem batch_estimate_evaluations model x eps step_size n_steps l2_normalize
  (w : world RNG) :
  exists r,
    compute_lipschitz_batch randn_like normalize sign_grad
      model x eps step_size n_steps l2_normalize w =
    (Return r,
     mkWorld (snd (randn_like (generator w) x)) (evaluations w + (n_steps + 2))).
Proof.
  unfold compute_lipschitz_batch, bind, draw_randn_like.
  destruct (randn_like (generator w) x) as [noise g]. simpl snd.
  rewrite f_run. simpl generator. simpl evaluations.
  set (m := model_ normalize model l2_normalize).
  set (x0 := initial_x_prime x eps step_size noise).
  destruct (ascent_run m (m x) x eps step_size n_steps
              (mean (objective m (m x) x x0)) x0
              (mkWorld g (S (evaluations w))))
    as (ml & xp & Hrun & _).
  rewrite Hrun, f_run. unfold ret. simpl.
  eexists. do 2 f_equal. lia.
Qed.

(** C10.  With [n_steps = 0] the batch estimator takes no ascent step: the
    loop hands back the point and the maximum it was given without
    evaluating anything, so the objective is evaluated twice, at the one
    initial projected point, and the value returned is exactly the mean
    objective there. *)
Theorem batch_estimate_no_steps model x eps step_size l2_normalize (w : world RNG) :
  let m := model_ normalize model l2_normalize in
  let noise := fst (randn_like (generator w) x) in
  let x_prime := initial_x_prime x eps step_size noise in
  (forall max_lips (w' : world RNG),
     ascent sign_grad m (m x) x eps step_size 0 max_lips x_prime w' =
     (Return (max_lips, x_prime), w')) /\
  compute_lipschitz_batch randn_like normalize sign_grad
    model x eps step_size 0 l2_normalize w =
  (Return (mean (objective m (m x) x x_prime)),
   mkWorld (snd (randn_like (generator w) x)) (evaluations w + 2)).
Proof.
  intros m noise x_prime. split; [reflexivity|].
  subst m noise x_prime.
  unfold compute_lipschitz_batch, bind, draw_randn_like.
  destruct (randn_like (generator w) x) as [noise g].
  simpl. unfold ret. rewrite py_max_same.
  do 2 f_equal. lia.
Qed.

End EstimatorFacts.

(** ** The dataset aggregator and the layer-wise driver: C7, C8, C9 *)

(** The loader yields [length dataset / batch_size] batches. *)
Lemma batch_sampler_length {A} (batch_size : nat) :
  forall (l cur : list A),
  (length cur < batch_size)%nat ->
  length (batch_sampler batch_size cur l) =
  ((length cur + length l) / batch_size)%nat.
Proof.
  induction l as [|a l IH]; intros cur Hcur; simpl.
  - rewrite Nat.add_0_r. symmetry. now apply Nat.div_small.
  - assert (Hlen : length (cur ++ [a]) = S (length cur))
      by (rewrite length_app; simpl; lia).
    destruct (Nat.eqb_spec (length (cur ++ [a])) batch_size) as [E|E].
    + simpl. rewrite IH by (simpl; lia). simpl.
      replace (length cur + S (length l))%nat
        with (1 * batch_size + length l)%nat by lia.
      rewrite Nat.div_add_l by lia. lia.
    + rewrite IH by lia. f_equal. lia.
Qed.

Lemma DataLoader_length {label} (dataset : list (sample * label)) batch_size :
  (0 < batch_size)%nat ->
  length (DataLoader dataset batch_size) = (length dataset / batch_size)%nat.
Proof.
  intros H. unfold DataLoader. rewrite length_map.
  now rewrite batch_sampler_length.
Qed.

Lemma DataLoader_empty {label} (dataset : list (sample * label)) batch_size :
  (length dataset < batch_size)%nat -> DataLoader dataset batch_size = [].
Proof.
  intros H. apply length_zero_iff_nil.
  rewrite DataLoader_length by lia. now apply Nat.div_small.
Qed.

Section AggregatorFacts.

Context {RNG label BenchmarkDataset : Type}.
Variable randn_like : RNG -> tensor -> tensor * RNG.
Variable normalize : tensor -> tensor.
Variable sign_grad : (tensor -> fval) -> tensor -> tensor.
Variable load_clean_dataset : BenchmarkDataset -> nat -> string -> tensor * list label.

(** The accumulator loop adds the estimates of the batches, in order, to
    what it starts from. *)
Lemma batches_loop_run model eps step_size n_steps l2_normalize :
  forall (dl : list (batch label)) lips (w : world RNG),
  exists es w',
    batch_estimates randn_like normalize sign_grad
      model eps step_size n_steps l2_normalize dl w = (Return es, w') /\
    length es = length dl /\
    batches_loop randn_like normalize sign_grad
      model eps step_size n_steps l2_normalize dl lips w =
    (Return (fold_left fadd es lips), w').
Proof.
  induction dl as [|[x y] dl IH]; intros lips w.
  - exists [], w. repeat split.
  - simpl. unfold bind at 1 3.
    destruct (compute_lipschitz_batch_run randn_like normalize sign_grad
                model x eps step_size n_steps l2_normalize w) as [e He].
    rewrite He.
    destruct (IH (fadd lips e)
                (mkWorld (snd (randn_like (generator w) x))
                         (evaluations w + (n_steps + 2))))
      as (es & w' & Hes & Hlen & Hloop).
    exists (e :: es), w'. unfold bind. rewrite Hes, Hloop. simpl.
    repeat split. now rewrite Hlen.
Qed.

Lemma compute_lipschitz_fl_exact model (dl : list (batch label)) eps step_size
  n_steps l2_normalize (w : world RNG) :
  compute_lipschitz_fl randn_like normalize sign_grad Qplus Qdiv
    model dl eps step_size n_steps l2_normalize w =
  compute_lipschitz randn_like normalize sign_grad
    model dl eps step_size n_steps l2_normalize w.
Proof.
  unfold compute_lipschitz_fl, compute_lipschitz, bind.
  assert (H : forall (d : list (batch label)) lips (w0 : world RNG),
    batches_loop_fl randn_like normalize sign_grad Qplus
      model eps step_size n_steps l2_normalize d lips w0 =
    batches_loop randn_like normalize sign_grad
      model eps step_size n_steps l2_normalize d lips w0).
  { induction d as [|[x y] d IH]; intros lips w0; [reflexivity|].
    simpl. unfold bind.
    destruct (compute_lipschitz_batch randn_like normalize sign_grad
                model x eps step_size n_steps l2_normalize w0) as [[e|e] w1];
      [apply IH | reflexivity]. }
  rewrite H. reflexivity.
Qed.

(** The accumulator loop, with any rounding of its sums. *)
Lemma batches_loop_fl_run radd model eps step_size n_steps l2_normalize :
  forall (dl : list (batch label)) lips (w : world RNG),
  exists es w',
    batch_estimates randn_like normalize sign_grad
      model eps step_size n_steps l2_normalize dl w = (Return es, w') /\
    length es = length dl /\
    batches_loop_fl randn_like normalize sign_grad radd
      model eps step_size n_steps l2_normalize dl lips w =
    (Return (fold_left (fadd_fl radd) es lips), w').
Proof.
  induction dl as [|[x y] dl IH]; intros lips w.
  - exists [], w. repeat split.
  - simpl. unfold bind at 1 3.
    destruct (compute_lipschitz_batch_run randn_like normalize sign_grad
                model x eps step_size n_steps l2_normalize w) as [e He].
    rewrite He.
    destruct (IH (fadd_fl radd lips e)
                (mkWorld (snd (randn_like (generator w) x))
                         (evaluations w + (n_steps + 2))))
      as (es & w' & Hes & Hlen & Hloop).
    exists (e :: es), w'. unfold bind. rewrite Hes, Hloop. simpl.
    repeat split. now rewrite Hlen.
Qed.

Lemma fold_fadd_fl_Fin radd qs : forall acc,
  fold_left (fadd_fl radd) (map Fin qs) (Fin acc) = Fin (fold_left radd qs acc).
Proof. induction qs as [|q qs IH]; intros acc; simpl; [reflexivity | apply IH]. Qed.

(** C7.  On a sequence of batches that is not empty, [compute_lipschitz]
    returns the arithmetic mean of the batch estimates as floats compute
    it: the estimates of [compute_lipschitz_batch] on the batches, taken in
    order, are added from the left to 0 and the sum is divided by the
    number of batches, each operation with the rounding of the float type.
    When the estimates are the numbers [q1 ... qn] the value returned is
    [rdiv (radd (... (radd 0 q1) ...) qn) n]. *)
Theorem compute_lipschitz_fl_mean (radd rdiv : Q -> Q -> Q) model
  (dl : list (batch label)) eps step_size n_steps l2_normalize (w : world RNG) :
  dl <> [] ->
  exists es w',
    batch_estimates randn_like normalize sign_grad
      model eps step_size n_steps l2_normalize dl w = (Return es, w') /\
    length es = length dl /\
    compute_lipschitz_fl randn_like normalize sign_grad radd rdiv
      model dl eps step_size n_steps l2_normalize w =
    (Return (fdiv_count_fl rdiv (fold_left (fadd_fl radd) es (Fin 0)) (length dl)),
     w') /\
    forall qs, es = map Fin qs ->
      compute_lipschitz_fl randn_like normalize sign_grad radd rdiv
        model dl eps step_size n_steps l2_normalize w =
      (Return (Fin (rdiv (fold_left radd qs 0)
                         (inject_Z (Z.of_nat (length dl))))), w').
Proof.
  intros Hne.
  destruct (batches_loop_fl_run radd model eps step_size n_steps l2_normalize
              dl (Fin 0) w) as (es & w' & Hes & Hlen & Hloop).
  exists es, w'.
  assert (Hrun : compute_lipschitz_fl randn_like normalize sign_grad radd rdiv
                   model dl eps step_size n_steps l2_normalize w =
                 (Return (fdiv_count_fl rdiv
                            (fold_left (fadd_fl radd) es (Fin 0)) (length dl)), w')).
  { unfold compute_lipschitz_fl, bind. rewrite Hloop.
    destruct dl; [contradiction | reflexivity]. }
  split; [exact Hes|]. split; [exact Hlen|]. split; [exact Hrun|].
  intros qs ->. rewrite Hrun, fold_fadd_fl_Fin. reflexivity.
Qed.

(** [compute_lipschitz] on no batch at all. *)
Lemma compute_lipschitz_no_batch model eps step_size n_steps l2_normalize
  (w : world RNG) :
  compute_lipschitz (label := label) randn_like normalize sign_grad
    model [] eps step_size n_steps l2_normalize w =
  (Raise ZeroDivisionError, w).
Proof. reflexivity. Qed.

Lemma compute_lipschitz_returns model (dl : list (batch label)) eps step_size
  n_steps l2_normalize (w : world RNG) :
  dl <> [] ->
  exists v w',
    compute_lipschitz randn_like normalize sign_grad
      model dl eps step_size n_steps l2_normalize w = (Return v, w').
Proof.
  intros Hne.
  destruct (batches_loop_run model eps step_size n_steps l2_normalize dl (Fin 0) w)
    as (es & w' & _ & _ & Hloop).
  unfold compute_lipschitz, bind. rewrite Hloop.
  destruct dl; [contradiction | simpl; unfold ret; eauto].
Qed.

(** The loop over the layers, from any prefix [net] and any list [lips]
    gathered so far. *)
Lemma layers_loop_run (dl : list (batch label)) eps step_size n_steps l2_normalize :
  dl <> [] ->
  forall layers net lips (w : world RNG),
  exists out w',
    layers_loop randn_like normalize sign_grad
      dl eps step_size n_steps l2_normalize layers net lips w =
    (Return (lips ++ out), w') /\
    length out = length layers /\
    forall i, (i < length layers)%nat ->
      exists wi wi',
        layers_loop randn_like normalize sign_grad
          dl eps step_size n_steps l2_normalize (firstn i layers) net lips w =
        (Return (lips ++ firstn i out), wi) /\
        compute_lipschitz randn_like normalize sign_grad
          (Sequential (net ++ firstn (S i) layers)) dl
          eps step_size n_steps l2_normalize wi =
        (Return (nth i out NaN), wi').
Proof.
  intros Hne. induction layers as [|l rest IH]; intros net lips w.
  - exists [], w. simpl. rewrite app_nil_r. repeat split. intros i Hi. lia.
  - destruct (compute_lipschitz_returns (Sequential (net ++ [l])) dl
                eps step_size n_steps l2_normalize w Hne) as (v & w1 & Hv).
    destruct (IH (net ++ [l]) (lips ++ [v]) w1) as (out & w' & Hrun & Hlen & Hpre).
    exists (v :: out), w'. simpl layers_loop. unfold bind at 1. rewrite Hv, Hrun.
    rewrite <- app_assoc. simpl. repeat split; [now rewrite Hlen|].
    intros [|i] Hi.
    + exists w, w1. simpl. unfold ret. now rewrite app_nil_r.
    + destruct (Hpre i ltac:(lia)) as (wi & wi' & H1 & H2).
      exists wi, wi'. simpl firstn. simpl layers_loop. unfold bind at 1.
      rewrite Hv, H1. rewrite <- !app_assoc in *. simpl in *. now split.
Qed.

(** C8, amended.  For every model in evaluation mode exposing [k]
    Lipschitz-relevant layers and every dataset and batch size for which the
    loader yields at least one batch, [benchmark_lipschitz] returns a list of
    exactly [k] values in layer order; its entry [i] is what
    [compute_lipschitz] returns on the sequential prefix of the first
    [i + 1] layers, run in the state that the driver leaves after the first
    [i] layers. *)
Theorem benchmark_lipschitz_per_layer (model : LipschitzModel) n_examples
  (dataset : BenchmarkDataset) data_dir batch_size eps step_size n_steps
  l2_normalize (w : world RNG) :
  let layers := get_lipschitz_layers model in
  let data := load_clean_dataset dataset n_examples data_dir in
  let dl := DataLoader (TensorDataset (fst data) (snd data)) batch_size in
  training model = false ->
  dl <> [] ->
  exists lips w',
    benchmark_lipschitz randn_like normalize sign_grad load_clean_dataset
      model n_examples dataset data_dir batch_size
      eps step_size n_steps l2_normalize w = (Return lips, w') /\
    length lips = length layers /\
    forall i, (i < length layers)%nat ->
      exists wi wi',
        benchmark_lipschitz randn_like normalize sign_grad load_clean_dataset
          (mkModel false (firstn i layers)) n_examples dataset data_dir batch_size
          eps step_size n_steps l2_normalize w = (Return (firstn i lips), wi) /\
        compute_lipschitz randn_like normalize sign_grad
          (Sequential (firstn (S i) layers)) dl
          eps step_size n_steps l2_normalize wi =
        (Return (nth i lips NaN), wi').
Proof.
  intros layers data dl Heval Hne.
  unfold benchmark_lipschitz, check_model_eval, bind. rewrite Heval.
  simpl training. simpl get_lipschitz_layers. fold layers.
  subst dl data.
  destruct (load_clean_dataset dataset n_examples data_dir) as [x y].
  simpl fst in *. simpl snd in *.
  destruct (layers_loop_run (DataLoader (TensorDataset x y) batch_size)
              eps step_size n_steps l2_normalize Hne layers [] [] w)
    as (out & w' & Hrun & Hlen & Hpre).
  exists out, w'. repeat split; auto.
Qed.

(** C9.  On a loader that yields no batch [compute_lipschitz] raises
    [ZeroDivisionError] and returns no value; a loader over fewer samples
    than [batch_size] is such a loader, so [benchmark_lipschitz], on a model
    in evaluation mode, raises on its first layer when
    [n_examples < batch_size]. *)
Theorem compute_lipschitz_zero_batches model eps step_size n_steps l2_normalize
  (w : world RNG) :
  compute_lipschitz (label := label) randn_like normalize sign_grad
    model [] eps step_size n_steps l2_normalize w =
  (Raise ZeroDivisionError, w) /\
  (forall (samples : list (sample * label)) batch_size,
     (length samples < batch_size)%nat ->
     compute_lipschitz randn_like normalize sign_grad
       model (DataLoader samples batch_size) eps step_size n_steps l2_normalize w =
     (Raise ZeroDivisionError, w)) /\
  (forall first rest n_examples (dataset : BenchmarkDataset) data_dir batch_size,
     (length (fst (load_clean_dataset dataset n_examples data_dir)) <= n_examples)%nat ->
     (n_examples < batch_size)%nat ->
     benchmark_lipschitz randn_like normalize sign_grad load_clean_dataset
       (mkModel false (first :: rest)) n_examples dataset data_dir batch_size
       eps step_size n_steps l2_normalize w =
     (Raise ZeroDivisionError, w)).
Proof.
  split; [reflexivity|]. split.
  - intros samples batch_size Hlt. now rewrite DataLoader_empty.
  - intros first rest n_examples dataset data_dir batch_size Hload Hlt.
    unfold benchmark_lipschitz, check_model_eval, bind. simpl.
    destruct (load_clean_dataset dataset n_examples data_dir) as [x y].
    simpl in Hload.
    rewrite DataLoader_empty; [reflexivity|].
    unfold TensorDataset. rewrite length_combine. lia.
Qed.

End AggregatorFacts.

(** ** Concrete runs *)

(** C1 as stated fails: on the reference value 2, outside [[0,1]], with
    radius 1/2, the projection of 0 is 3/2, above [upper = 1]. *)
Lemma box_containment_counterexample :
  0 <= 1 # 2 /\
  exists out,
    coord (box [[0]] [[2]] (1 # 2)) 0 0 = Some out /\
    out == 3 # 2 /\ upper 2 (1 # 2) == 1 /\ ~ out <= upper 2 (1 # 2).
Proof.
  split; [discriminate|].
  eexists. split; [reflexivity|].
  repeat split; try reflexivity.
  apply Qlt_not_le. reflexivity.
Qed.

Lemma box_fl_containment_closest_witness :
  exists out,
    coord (box_fl Qminus Qplus [[3 # 2]] [[1 # 2]] (1 # 4)) 0 0 = Some out /\
    lower_fl Qminus (1 # 2) (1 # 4) <= out <= upper_fl Qplus (1 # 2) (1 # 4) /\
    (forall y, lower_fl Qminus (1 # 2) (1 # 4) <= y <= upper_fl Qplus (1 # 2) (1 # 4) ->
               Qabs ((3 # 2) - out) <= Qabs ((3 # 2) - y)) /\
    (forall y, lower_fl Qminus (1 # 2) (1 # 4) <= y <= upper_fl Qplus (1 # 2) (1 # 4) ->
               Qabs ((3 # 2) - y) <= Qabs ((3 # 2) - out) -> y == out).
Proof.
  apply (box_fl_containment_closest Qminus Qplus [[3 # 2]] [[1 # 2]] (1 # 4) 0 0
           (3 # 2) (1 # 2)).
  - reflexivity.
  - reflexivity.
  - vm_compute. discriminate.
Defined.

(** C4 as stated fails: with radius 0 and the reference value -1 the
    projector returns 0, not -1. *)
Lemma box_zero_radius_counterexample :
  same_shape [[0]] [[-1]] /\
  box [[0]] [[-1]] 0 = [[0]] /\
  ~ teq (box [[0]] [[-1]] 0) [[-1]].
Proof.
  split; [repeat constructor|]. split; [reflexivity|].
  intros H. inversion H as [|? ? ? ? Hr _]; subst.
  inversion Hr as [|? ? ? ? Hq _]; subst.
  discriminate Hq.
Qed.

Lemma box_zero_radius_witness :
  teq (box [[3 # 2; 0]; [-1]] [[1 # 2; 1]; [0]] 0) [[1 # 2; 1]; [0]].
Proof.
  apply box_zero_radius.
  - repeat constructor.
  - repeat constructor; discriminate.
Defined.

(** C2 as stated fails: with radius 0 the first perturbed point is [x]
    itself, whatever the noise; the L-inf denominator is 0 and the objective
    is 0/0. *)
Lemma initial_point_counterexample :
  Forall (Forall (fun v => 0 <= v <= 1)) [[1 # 2]] /\
  teq (initial_x_prime [[1 # 2]] 0 1 [[1]]) [[1 # 2]] /\
  Forall (fun d => d == 0) (denominator [[1 # 2]] (initial_x_prime [[1 # 2]] 0 1 [[1]])) /\
  objective identity (identity [[1 # 2]]) [[1 # 2]]
    (initial_x_prime [[1 # 2]] 0 1 [[1]]) = [NaN].
Proof.
  split; [repeat constructor; discriminate|].
  split; [repeat constructor|].
  split; [repeat constructor|]. reflexivity.
Qed.

(** The same with a positive radius, on a coordinate that sits on the bound
    1 and is pushed upwards. *)
Example initial_point_on_bound :
  teq (initial_x_prime [[1]] (1 # 4) (1 # 8) [[1]]) [[1]] /\
  objective identity (identity [[1]]) [[1]]
    (initial_x_prime [[1]] (1 # 4) (1 # 8) [[1]]) = [NaN].
Proof. split; [repeat constructor | reflexivity]. Qed.

(** C2.  The source means to start from a point that differs from [x] (its
    comment on the initialisation says so) and does not always: on the
    one-pixel batch [[[1]]], with radius 1/4, step 1/8 and the draw 1, the
    candidate 9/8 is clamped back to 1, the first point is [x], the
    denominator is 0, the first objective is 0/0 and the estimator returns
    NaN. *)
Theorem initial_point_is_reference :
  fst (ones_noise tt [[1]]) = [[1]] /\
  initial_x_prime [[1]] (1 # 4) (1 # 8) [[1]] = [[1]] /\
  Forall (fun d => d == 0)
    (denominator [[1]] (initial_x_prime [[1]] (1 # 4) (1 # 8) [[1]])) /\
  compute_lipschitz_batch ones_noise no_normalize ones_sign
    identity [[1]] (1 # 4) (1 # 8) 0 false start = (Return NaN, mkWorld tt 2).
Proof.
  split; [reflexivity|]. split; [reflexivity|].
  split; [repeat constructor | reflexivity].
Qed.

(** C5 as stated fails: with radius 0 the first perturbed point is [x], the
    first mean objective is 0/0 = NaN, the estimator returns NaN, and
    NaN >= NaN does not hold. *)
Lemma batch_estimate_counterexample :
  let initial :=
    mean (objective identity (identity [[1 # 2]]) [[1 # 2]]
            (initial_x_prime [[1 # 2]] 0 1 (fst (ones_noise tt [[1 # 2]])))) in
  initial = NaN /\
  exists r,
    compute_lipschitz_batch ones_noise no_normalize ones_sign
      identity [[1 # 2]] 0 1 0 false start = (Return r, mkWorld tt 2) /\
    fge r initial = false.
Proof. split; [reflexivity|]. exists NaN. split; reflexivity. Qed.

(** A run in which every objective value is a number. *)
Example batch_estimate_run :
  exists q,
    compute_lipschitz_batch ones_noise no_normalize ones_sign
      double [[1 # 2; 1]; [0; 1 # 4]] (1 # 4) (1 # 8) 3 false start =
    (Return (Fin q), mkWorld tt 5) /\ q == 3.
Proof. eexists. split; [vm_compute; reflexivity | reflexivity]. Qed.

Lemma compute_lipschitz_fl_mean_witness :
  exists es w',
    batch_estimates ones_noise no_normalize ones_sign
      double (1 # 4) (1 # 8) 1 false
      [([[1 # 2]], [0%nat]); ([[1 # 4; 0]], [1%nat])] start = (Return es, w') /\
    length es = 2%nat /\
    compute_lipschitz_fl ones_noise no_normalize ones_sign Qplus Qdiv
      double [([[1 # 2]], [0%nat]); ([[1 # 4; 0]], [1%nat])] (1 # 4) (1 # 8) 1
      false start =
    (Return (fdiv_count_fl Qdiv (fold_left (fadd_fl Qplus) es (Fin 0)) 2), w') /\
    forall qs, es = map Fin qs ->
      compute_lipschitz_fl ones_noise no_normalize ones_sign Qplus Qdiv
        double [([[1 # 2]], [0%nat]); ([[1 # 4; 0]], [1%nat])] (1 # 4) (1 # 8) 1
        false start =
      (Return (Fin (Qdiv (fold_left Qplus qs 0) (inject_Z (Z.of_nat 2)))), w').
Proof.
  apply (compute_lipschitz_fl_mean ones_noise no_normalize ones_sign Qplus Qdiv
           double [([[1 # 2]], [0%nat]); ([[1 # 4; 0]], [1%nat])] (1 # 4) (1 # 8)
           1 false start).
  discriminate.
Defined.

(** The run of the witness: two batches with the estimates 2 and 4, and
    their mean 3. *)
Example compute_lipschitz_fl_run :
  exists q1 q2 q,
    batch_estimates ones_noise no_normalize ones_sign
      double (1 # 4) (1 # 8) 1 false
      [([[1 # 2]], [0%nat]); ([[1 # 4; 0]], [1%nat])] start =
    (Return [Fin q1; Fin q2], mkWorld tt 6) /\
    compute_lipschitz_fl ones_noise no_normalize ones_sign Qplus Qdiv
      double [([[1 # 2]], [0%nat]); ([[1 # 4; 0]], [1%nat])] (1 # 4) (1 # 8) 1
      false start = (Return (Fin q), mkWorld tt 6) /\
    q1 == 2 /\ q2 == 4 /\ q == 3.
Proof.
  eexists _, _, _. split; [vm_compute; reflexivity|].
  split; [vm_compute; reflexivity|]. repeat split; reflexivity.
Qed.
(** C8 as stated fails: on one example and batches of two the loader yields
    no batch, and the driver raises on its first layer instead of returning
    a list; and on a model left in training mode the check raises before any
    layer is looked at. *)
Lemma benchmark_lipschitz_counterexample :
  benchmark_lipschitz ones_noise no_normalize ones_sign two_images
    (mkModel false [identity]) 1 tt "data" 2 (1 # 4) (1 # 8) 1 false start =
  (Raise ZeroDivisionError, start) /\
  benchmark_lipschitz ones_noise no_normalize ones_sign two_images
    (mkModel true [identity]) 2 tt "data" 1 (1 # 4) (1 # 8) 1 false start =
  (Raise ModelNotInEvalMode, start).
Proof. split; reflexivity. Qed.

Lemma benchmark_lipschitz_per_layer_witness :
  exists lips w',
    benchmark_lipschitz ones_noise no_normalize ones_sign two_images
      (mkModel false [identity; double]) 2 tt "data" 1 (1 # 4) (1 # 8) 1 false start =
    (Return lips, w') /\
    length lips = 2%nat /\
    forall i, (i < 2)%nat ->
      exists wi wi',
        benchmark_lipschitz ones_noise no_normalize ones_sign two_images
          (mkModel false (firstn i [identity; double])) 2 tt "data" 1
          (1 # 4) (1 # 8) 1 false start =
        (Return (firstn i lips), wi) /\
        compute_lipschitz ones_noise no_normalize ones_sign
          (Sequential (firstn (S i) [identity; double]))
          (DataLoader (TensorDataset (fst (two_images tt 2 "data"))
                                     (snd (two_images tt 2 "data"))) 1)
          (1 # 4) (1 # 8) 1 false wi =
        (Return (nth i lips NaN), wi').
Proof.
  apply (benchmark_lipschitz_per_layer ones_noise no_normalize ones_sign two_images
           (mkModel false [identity; double]) 2 tt "data" 1 (1 # 4) (1 # 8) 1
           false start).
  - reflexivity.
  - vm_compute. discriminate.
Defined.

(** * Further properties *)

(** ** The projector *)


Lemma box_coord_monotone p q v eps :
  p <= q ->
  box_coord p v eps <= box_coord q v eps /\
  box_coord q v eps - box_coord p v eps <= q - p.
Proof.
  intros Hpq. unfold box_coord.
  generalize (lower v eps) (upper v eps). intros lo hi.
  split; minmax_cases; lra.
Qed.


(** X2.  The projector is monotone and non-expansive in the candidate: of
    two candidates for one reference, the larger coordinate projects to the
    larger result, and the results are no further apart than the
    candidates. *)
Theorem box_monotone_nonexpansive (x1 x2 x : tensor) (eps : Q) (i j : nat) (p q v : Q) :
  coord x1 i j = Some p ->
  coord x2 i j = Some q ->
  coord x i j = Some v ->
  p <= q ->
  exists o1 o2,
    coord (box x1 x eps) i j = Some o1 /\
    coord (box x2 x eps) i j = Some o2 /\
    o1 <= o2 /\ o2 - o1 <= q - p.
Proof.
  intros Hp Hq Hv Hpq.
  exists (box_coord p v eps), (box_coord q v eps).
  rewrite !coord_box, Hp, Hq, Hv.
  repeat split; now apply box_coord_monotone.
Qed.

(** X3.  Whatever the candidate, the reference, the radius and the
    rounding of [x - eps] and [x + eps] (also a reference outside [[0,1]] or
    a negative radius), no coordinate of the projection is negative and none
    is below the lower bound [max(0, fl(x - eps))] that the source computes:
    the lower clamp is applied last and always holds. *)
Theorem box_fl_floor (sub add : Q -> Q -> Q) (x_prime x : tensor) (eps : Q)
  (i j : nat) (o : Q) :
  coord (box_fl sub add x_prime x eps) i j = Some o ->
  0 <= o /\ exists v, coord x i j = Some v /\ lower_fl sub v eps <= o.
Proof.
  rewrite coord_box_fl.
  destruct (coord x_prime i j) as [p|]; [|discriminate].
  destruct (coord x i j) as [v|]; [|discriminate].
  intros H. injection H as <-.
  split; [unfold lower_fl; minmax_cases; lra|].
  exists v. split; [reflexivity | apply Q.le_max_l].
Qed.

(** X4.  Where the computed interval is empty, the computed upper bound
    [min(1, fl(x + eps))] below the computed lower bound
    [max(0, fl(x - eps))] (as for a negative radius, or a reference far
    outside [[0,1]]), the projector ignores the candidate and returns the
    computed lower bound. *)
Theorem box_fl_empty_interval (sub add : Q -> Q -> Q) (x_prime x : tensor) (eps : Q)
  (i j : nat) (p v : Q) :
  coord x_prime i j = Some p ->
  coord x i j = Some v ->
  upper_fl add v eps < lower_fl sub v eps ->
  exists out,
    coord (box_fl sub add x_prime x eps) i j = Some out /\
    out == lower_fl sub v eps.
Proof.
  intros Hp Hv Hout.
  eexists. rewrite coord_box_fl, Hp, Hv. split; [reflexivity|].
  generalize dependent (lower_fl sub v eps).
  generalize (upper_fl add v eps). intros hi lo Hlt.
  minmax_cases; lra.
Qed.

(** ** Shapes *)

Lemma same_shape_refl a : same_shape a a.
Proof. unfold same_shape. induction a; constructor; auto. Qed.

Lemma same_shape_sym a b : same_shape a b -> same_shape b a.
Proof. unfold same_shape. induction 1; constructor; auto. Qed.

Lemma same_shape_trans a b c : same_shape a b -> same_shape b c -> same_shape a c.
Proof.
  unfold same_shape. intros H; revert c.
  induction H as [|s r a b Hl H IH]; intros c Hc; inversion Hc; subst;
    constructor; [congruence | auto].
Qed.

Lemma same_shape_tmap g t : same_shape (tmap g t) t.
Proof.
  unfold same_shape, tmap. induction t as [|s t IH]; simpl; constructor;
    [apply length_map | exact IH].
Qed.

Lemma length_zip_with_same {A B C} (g : A -> B -> C) l r :
  length r = length l -> length (zip_with g l r) = length l.
Proof.
  revert r; induction l as [|a l IH]; intros [|b r] H; simpl in *;
    try discriminate; auto.
Qed.

Lemma same_shape_tmap2 g a b : same_shape b a -> same_shape (tmap2 g a b) a.
Proof.
  unfold same_shape, tmap2. intros H.
  induction H as [|r s b a Hl H IH]; simpl; constructor;
    [now apply length_zip_with_same | exact IH].
Qed.

Lemma teq_same_shape a b : teq a b -> same_shape a b.
Proof.
  unfold teq, same_shape. induction 1 as [|s r a b Hr H IH]; constructor;
    [eapply Forall2_length; eassumption | exact IH].
Qed.

(** With radius 0 the projection of a tensor of the reference's shape is the
    reference, when the reference has no negative coordinate. *)
Lemma box_returns_reference t x :
  same_shape t x -> Forall (Forall (fun v => 0 <= v)) x -> teq (box t x 0) x.
Proof.
  rewrite box_rows. unfold teq, same_shape.
  intros Hs; induction Hs as [|ps vs t x Hl Hs IH]; intros Hx; simpl;
    constructor.
  - apply box_row_zero_radius; [exact Hl | now inversion Hx].
  - apply IH. now inversion Hx.
Qed.

(** A step added to a point has the point's shape, when the direction has. *)
Lemma step_same_shape p step_size g :
  same_shape g p -> same_shape (tadd p (scale step_size g)) p.
Proof.
  intros Hg. unfold tadd. apply same_shape_tmap2.
  eapply same_shape_trans; [apply same_shape_tmap | exact Hg].
Qed.

(** ** Objective values: signs and non-finite values *)

Lemma norm_1_nonneg s : 0 <= norm_1 s.
Proof.
  induction s as [|a s IH]; simpl; [discriminate|].
  pose proof (Qabs_nonneg a). lra.
Qed.

Lemma norm_inf_nonneg s : 0 <= norm_inf s.
Proof.
  induction s as [|a s IH]; simpl; [discriminate|].
  eapply Qle_trans; [exact IH | apply Q.le_max_r].
Qed.

Lemma fdiv_not_negative n d : 0 <= n -> 0 <= d -> not_negative (fdiv n d).
Proof.
  intros Hn Hd. unfold fdiv.
  destruct (Qeq_bool d 0) eqn:E.
  - destruct (n ?= 0) eqn:C; simpl; auto.
    apply Qlt_alt in C. lra.
  - simpl. apply Qeq_bool_neq in E.
    apply Qle_shift_div_l; lra.
Qed.

Lemma fadd_not_negative a b : not_negative a -> not_negative b -> not_negative (fadd a b).
Proof. destruct a, b; simpl; auto; try contradiction. intros; lra. Qed.

Lemma fold_fadd_not_negative l : forall acc,
  not_negative acc -> Forall not_negative l -> not_negative (fold_left fadd l acc).
Proof.
  induction l as [|v l IH]; intros acc Ha Hl; simpl; [exact Ha|].
  inversion Hl; subst. apply IH; [now apply fadd_not_negative | assumption].
Qed.

Lemma fdiv_count_not_negative a n : not_negative a -> not_negative (fdiv_count a n).
Proof.
  destruct a; simpl; auto. intros Hq.
  unfold Qdiv. apply Qmult_le_0_compat; [exact Hq|].
  apply Qinv_le_0_compat. unfold inject_Z, Qle. simpl. lia.
Qed.

Lemma mean_not_negative l : Forall not_negative l -> not_negative (mean l).
Proof.
  intros H. destruct l as [|v l]; [exact I|].
  unfold mean. apply fdiv_count_not_negative.
  unfold fsum. apply fold_fadd_not_negative; [simpl; discriminate | exact H].
Qed.

Lemma objective_not_negative (m : layer) model_x x p :
  Forall not_negative (objective m model_x x p).
Proof.
  unfold objective, numerator, denominator.
  generalize (tsub model_x (m p)) (tsub x p). intros a b.
  revert b; induction a as [|s a IH]; intros [|r b]; simpl; constructor.
  - apply fdiv_not_negative; [apply norm_1_nonneg | apply norm_inf_nonneg].
  - apply IH.
Qed.

Lemma py_max_cases a b : py_max a b = a \/ py_max a b = b.
Proof. unfold py_max. destruct (fgt b a); auto. Qed.

(** Sums and means of values none of which is a number. *)
Lemma fadd_not_finite_r a b : ~ finite b -> ~ finite (fadd a b).
Proof.
  unfold finite. intros Hb [q Hq]. destruct a, b; simpl in Hq; try discriminate.
  apply Hb. eauto.
Qed.

Lemma fadd_not_finite_l a b : ~ finite a -> ~ finite (fadd a b).
Proof.
  unfold finite. intros Ha [q Hq]. destruct a, b; simpl in Hq; try discriminate.
  apply Ha. eauto.
Qed.

Lemma fold_fadd_not_finite l : forall acc,
  ~ finite acc -> ~ finite (fold_left fadd l acc).
Proof.
  induction l as [|v l IH]; intros acc Ha; simpl; [exact Ha|].
  apply IH. now apply fadd_not_finite_l.
Qed.

Lemma mean_not_finite l : Forall (fun v => ~ finite v) l -> ~ finite (mean l).
Proof.
  intros H. destruct l as [|v l]; [intros [q Hq]; discriminate|].
  inversion H; subst. intros [q Hq].
  change (mean (v :: l))
    with (fdiv_count (fold_left fadd l (fadd (Fin 0) v)) (length (v :: l))) in Hq.
  apply (fold_fadd_not_finite l (fadd (Fin 0) v)); [now apply fadd_not_finite_r|].
  destruct (fold_left fadd l (fadd (Fin 0) v)) as [q0| | |];
    try discriminate Hq.
  exists q0. reflexivity.
Qed.

Lemma fdiv_zero_denominator n d : d == 0 -> ~ finite (fdiv n d).
Proof.
  intros Hd [q Hq]. unfold fdiv in Hq.
  apply Qeq_bool_iff in Hd. rewrite Hd in Hq.
  destruct (n ?= 0); discriminate.
Qed.

Lemma norm_inf_zero xs ps : Forall2 Qeq ps xs -> norm_inf (zip_with Qminus xs ps) == 0.
Proof.
  intros H; induction H as [|p v ps xs Hpv H IH]; simpl; [reflexivity|].
  assert (Ha : Qabs (v - p) == 0).
  { apply Qabs_case; intros; lra. }
  destruct (Q.max_spec (Qabs (v - p)) (norm_inf (zip_with Qminus xs ps)))
    as [[_ E]|[_ E]]; rewrite E; [exact IH | exact Ha].
Qed.

(** At a point equal to the reference every entry of the objective is a
    quotient by zero. *)
Lemma objective_at_reference (m : layer) model_x x p :
  teq p x -> Forall (fun v => ~ finite v) (objective m model_x x p).
Proof.
  unfold objective, numerator, denominator, tsub, tmap2, teq.
  generalize (zip_with (zip_with Qminus) model_x (m p)). intros a H.
  revert a; induction H as [|ps xs p x Hrow H IH]; intros [|s a]; simpl;
    constructor.
  - apply fdiv_zero_denominator. now apply norm_inf_zero.
  - apply IH.
Qed.

(** ** The batch estimator: what the loop keeps *)

Section EstimatorInvariants.

Context {RNG : Type}.
Variable randn_like : RNG -> tensor -> tensor * RNG.
Variable normalize : tensor -> tensor.
Variable sign_grad : (tensor -> fval) -> tensor -> tensor.

Local Abbreviation next := (next_point sign_grad).

Lemma ascent_step m model_x x eps step_size n max_lips x_prime (w : world RNG) :
  ascent sign_grad m model_x x eps step_size (S n) max_lips x_prime w =
  ascent sign_grad m model_x x eps step_size n
    (py_max max_lips (mean (objective m model_x x x_prime)))
    (next m model_x x eps step_size x_prime)
    (mkWorld (generator w) (S (evaluations w))).
Proof. reflexivity. Qed.

(** A property [P] of points that an iteration keeps, and a property [V] of
    values that holds of the mean objective at every such point, hold of the
    point and of the running maximum that the loop returns. *)
Lemma ascent_invariant (P : tensor -> Prop) (V : fval -> Prop)
  m model_x x eps step_size :
  (forall p, P p -> P (next m model_x x eps step_size p)) ->
  (forall p, P p -> V (mean (objective m model_x x p))) ->
  forall n_steps max_lips x_prime (w : world RNG),
  P x_prime -> V max_lips ->
  exists max_lips' x_prime',
    ascent sign_grad m model_x x eps step_size n_steps max_lips x_prime w =
    (Return (max_lips', x_prime'),
     mkWorld (generator w) (n_steps + evaluations w)) /\
    P x_prime' /\ V max_lips'.
Proof.
  intros Hnext Hval. induction n_steps as [|n IH]; intros max_lips x_prime w Hp Hv.
  - exists max_lips, x_prime. destruct w. simpl. auto.
  - rewrite ascent_step.
    destruct (IH (py_max max_lips (mean (objective m model_x x x_prime)))
                (next m model_x x eps step_size x_prime)
                (mkWorld (generator w) (S (evaluations w))))
      as (ml & xp & Hrun & Hp' & Hv').
    + now apply Hnext.
    + destruct (py_max_cases max_lips (mean (objective m model_x x x_prime)))
        as [-> | ->]; [exact Hv | now apply Hval].
    + exists ml, xp. rewrite Hrun. simpl.
      rewrite Nat.add_succ_r. auto.
Qed.

Lemma batch_estimate_invariant (P : tensor -> Prop) (V : fval -> Prop)
  model x eps step_size n_steps l2_normalize (w : world RNG) :
  let m := model_ normalize model l2_normalize in
  (forall p, P p -> P (next m (m x) x eps step_size p)) ->
  (forall p, P p -> V (mean (objective m (m x) x p))) ->
  P (initial_x_prime x eps step_size (fst (randn_like (generator w) x))) ->
  exists r w',
    compute_lipschitz_batch randn_like normalize sign_grad
      model x eps step_size n_steps l2_normalize w = (Return r, w') /\
    V r.
Proof.
  intros m Hnext Hval Hinit.
  unfold compute_lipschitz_batch, bind, draw_randn_like. fold m.
  destruct (randn_like (generator w) x) as [noise g]. simpl fst in Hinit.
  rewrite f_run. simpl generator. simpl evaluations.
  destruct (ascent_invariant P V m (m x) x eps step_size Hnext Hval n_steps
              (mean (objective m (m x) x (initial_x_prime x eps step_size noise)))
              (initial_x_prime x eps step_size noise)
              (mkWorld g (S (evaluations w))) Hinit (Hval _ Hinit))
    as (ml & xp & Hrun & Hp & Hv).
  rewrite Hrun, f_run. unfold ret.
  eexists _, _. split; [reflexivity|].
  destruct (py_max_cases ml (mean (objective m (m x) x xp))) as [-> | ->];
    [exact Hv | now apply Hval].
Qed.

Hypothesis randn_like_shape : forall g t, same_shape (fst (randn_like g t)) t.
Hypothesis sign_grad_shape : forall g p, same_shape (sign_grad g p) p.

(** X8.  With radius 0 the batch estimate is never a number: for a
    reference without negative coordinates, and draws and directions of the
    right shape, every perturbed point equals [x], every objective entry is
    a quotient by zero, and [compute_lipschitz_batch] returns plus infinity
    or NaN, whatever the model and the number of steps. *)
Theorem batch_estimate_zero_radius model x step_size n_steps l2_normalize
  (w : world RNG) :
  Forall (Forall (fun v => 0 <= v)) x ->
  exists r w',
    compute_lipschitz_batch randn_like normalize sign_grad
      model x 0 step_size n_steps l2_normalize w = (Return r, w') /\
    (r = PInf \/ r = NaN).
Proof.
  intros Hx.
  set (m := model_ normalize model l2_normalize).
  destruct (batch_estimate_invariant (fun p => teq p x)
              (fun v => ~ finite v /\ not_negative v)
              model x 0 step_size n_steps l2_normalize w)
    as (r & w' & Hrun & Hnf & Hnn).
  - intros p Hp. unfold next_point. apply box_returns_reference; [|exact Hx].
    eapply same_shape_trans; [apply step_same_shape, sign_grad_shape|].
    now apply teq_same_shape.
  - intros p Hp. split.
    + now apply mean_not_finite, objective_at_reference.
    + apply mean_not_negative, objective_not_negative.
  - unfold initial_x_prime. apply box_returns_reference; [|exact Hx].
    apply step_same_shape, randn_like_shape.
  - exists r, w'. split; [exact Hrun|].
    destruct r as [q| | |]; auto; [|contradiction].
    exfalso. apply Hnf. exists q. reflexivity.
Qed.

End EstimatorInvariants.

(** ** The batch estimator: sign of the estimate, and more steps *)

Section EstimatorValues.

Context {RNG : Type}.
Variable randn_like : RNG -> tensor -> tensor * RNG.
Variable normalize : tensor -> tensor.
Variable sign_grad : (tensor -> fval) -> tensor -> tensor.

(** X7.  The batch estimate is never negative: whatever the model, the
    batch and the parameters, [compute_lipschitz_batch] returns a number that
    is not negative, plus infinity or NaN, and never minus infinity. *)
Theorem batch_estimate_not_negative model x eps step_size n_steps l2_normalize
  (w : world RNG) :
  exists r w',
    compute_lipschitz_batch randn_like normalize sign_grad
      model x eps step_size n_steps l2_normalize w = (Return r, w') /\
    not_negative r.
Proof.
  apply (batch_estimate_invariant randn_like normalize sign_grad
           (fun _ => True) not_negative); auto.
  intros p _. apply mean_not_negative, objective_not_negative.
Qed.

(** The loop of [n + 1] steps is the loop of [n] steps and one more. *)
Lemma ascent_snoc m model_x x eps step_size n :
  forall max_lips x_prime (w : world RNG),
  ascent sign_grad m model_x x eps step_size (S n) max_lips x_prime w =
  bind (ascent sign_grad m model_x x eps step_size n max_lips x_prime)
       (fun r => ascent sign_grad m model_x x eps step_size 1 (fst r) (snd r)) w.
Proof.
  induction n as [|n IH]; intros max_lips x_prime w; [reflexivity|].
  rewrite (ascent_step sign_grad m model_x x eps step_size (S n)).
  rewrite IH. unfold bind.
  rewrite (ascent_step sign_grad m model_x x eps step_size n max_lips x_prime w).
  reflexivity.
Qed.

(** One more step folds one more evaluation into the maximum. *)
Lemma batch_estimate_one_more_step model x eps step_size n l2_normalize
  (w : world RNG) :
  exists r w1 v w2,
    compute_lipschitz_batch randn_like normalize sign_grad
      model x eps step_size n l2_normalize w = (Return r, w1) /\
    compute_lipschitz_batch randn_like normalize sign_grad
      model x eps step_size (S n) l2_normalize w = (Return (py_max r v), w2).
Proof.
  unfold compute_lipschitz_batch, draw_randn_like, bind.
  set (m := model_ normalize model l2_normalize).
  destruct (randn_like (generator w) x) as [noise g].
  rewrite !f_run. simpl generator. simpl evaluations.
  set (x0 := initial_x_prime x eps step_size noise).
  set (v0 := mean (objective m (m x) x x0)).
  set (w0 := mkWorld g (S (evaluations w))).
  rewrite ascent_snoc. unfold bind.
  destruct (ascent_run sign_grad m (m x) x eps step_size n v0 x0 w0)
    as (ml & xp & Hrun & _).
  rewrite Hrun. simpl.
  eexists _, _, _, _. split; reflexivity.
Qed.

Lemma py_max_order r v :
  flt (py_max r v) r = false /\
  (r <> NaN -> py_max r v <> NaN /\ fge (py_max r v) r = true) /\
  (r = NaN -> py_max r v = NaN).
Proof.
  assert (H : r <> NaN -> py_max r v <> NaN /\ fge (py_max r v) r = true)
    by apply py_max_keeps.
  repeat split; try (now apply H).
  - destruct r as [q| | |]; try (apply fle_not_flt, H; discriminate).
    now destruct (py_max NaN v).
  - intros ->. apply py_max_nan.
Qed.

(** X9.  More steps never lower the estimate: on the same batch, from the
    same generator state, the estimate with [n + k] steps is never less than
    the estimate with [n] steps, and is greater than or equal to it whenever
    that one is not NaN. *)
Theorem batch_estimate_more_steps model x eps step_size n k l2_normalize
  (w : world RNG) :
  exists r w1 r' w2,
    compute_lipschitz_batch randn_like normalize sign_grad
      model x eps step_size n l2_normalize w = (Return r, w1) /\
    compute_lipschitz_batch randn_like normalize sign_grad
      model x eps step_size (n + k) l2_normalize w = (Return r', w2) /\
    flt r' r = false /\
    (r <> NaN -> fge r' r = true).
Proof.
  enough (H : exists r w1 r' w2,
    compute_lipschitz_batch randn_like normalize sign_grad
      model x eps step_size n l2_normalize w = (Return r, w1) /\
    compute_lipschitz_batch randn_like normalize sign_grad
      model x eps step_size (n + k) l2_normalize w = (Return r', w2) /\
    (r <> NaN -> r' <> NaN /\ fge r' r = true) /\
    (r = NaN -> r' = NaN)).
  { destruct H as (r & w1 & r' & w2 & H1 & H2 & Hnum & Hnan).
    exists r, w1, r', w2.
    split; [exact H1|]. split; [exact H2|]. split; [|intros Hr; now apply Hnum].
    destruct r as [q| | |]; try (apply fle_not_flt, Hnum; discriminate).
    rewrite (Hnan eq_refl). reflexivity. }
  induction k as [|k IH].
  - destruct (batch_estimate_one_more_step model x eps step_size n l2_normalize w)
      as (r & w1 & _ & _ & H1 & _).
    exists r, w1, r, w1. rewrite Nat.add_0_r.
    split; [exact H1|]. split; [exact H1|]. split; [|auto].
    intros Hr. split; [exact Hr | now apply fge_refl].
  - destruct IH as (r & w1 & r' & w2 & H1 & H2 & Hnum & Hnan).
    destruct (batch_estimate_one_more_step model x eps step_size (n + k)
                l2_normalize w) as (r0 & w0 & v & w3 & H3 & H4).
    rewrite H2 in H3. injection H3 as <- <-.
    exists r, w1, (py_max r' v), w3.
    rewrite Nat.add_succ_r.
    destruct (py_max_order r' v) as (_ & Hk & Hn).
    split; [exact H1|]. split; [exact H4|]. split.
    + intros Hr. destruct (Hnum Hr) as [Hr' Hge].
      destruct (Hk Hr') as [Hne Hge']. split; [exact Hne|].
      unfold fge in *. eapply fle_trans; eassumption.
    + intros Hr. apply Hn, Hnan, Hr.
Qed.

End EstimatorValues.

(** ** Sums of batch estimates *)

Lemma fold_fadd_NaN_acc l : fold_left fadd l NaN = NaN.
Proof. induction l as [|v l IH]; simpl; [reflexivity | exact IH]. Qed.

Lemma fold_fadd_NaN l : forall acc, In NaN l -> fold_left fadd l acc = NaN.
Proof.
  induction l as [|v l IH]; intros acc Hin; [contradiction|].
  destruct Hin as [H|H]; simpl.
  - subst v. replace (fadd acc NaN) with NaN by (now destruct acc).
    apply fold_fadd_NaN_acc.
  - now apply IH.
Qed.

(** ** The dataset aggregator and the driver: cost, signs, bad batches *)

(** The batches of the loader, put end to end, are the dataset without a
    last incomplete batch. *)
Lemma batch_sampler_concat {A} (batch_size : nat) :
  forall (l cur : list A),
  (length cur < batch_size)%nat ->
  Forall (fun b => length b = batch_size) (batch_sampler batch_size cur l) /\
  exists rest,
    cur ++ l = concat (batch_sampler batch_size cur l) ++ rest /\
    (length rest < batch_size)%nat.
Proof.
  induction l as [|a l IH]; intros cur Hcur; simpl.
  - split; [constructor|]. exists cur. rewrite app_nil_r. auto.
  - assert (Hlen : length (cur ++ [a]) = S (length cur))
      by (rewrite length_app; simpl; lia).
    replace (cur ++ a :: l) with ((cur ++ [a]) ++ l)
      by (rewrite <- app_assoc; reflexivity).
    destruct (Nat.eqb_spec (length (cur ++ [a])) batch_size) as [E|E].
    + destruct (IH []) as (Hall & rest & Hcat & Hrest); [simpl; lia|].
      split; [constructor; assumption|].
      exists rest. split; [|exact Hrest].
      simpl concat. rewrite <- (app_assoc (cur ++ [a])).
      f_equal. exact Hcat.
    + apply IH. lia.
Qed.

Lemma concat_length_uniform {A} (n : nat) (bs : list (list A)) :
  Forall (fun b => length b = n) bs -> length (concat bs) = (length bs * n)%nat.
Proof.
  induction 1 as [|b bs Hb H IH]; simpl; [reflexivity|].
  rewrite length_app, IH, Hb. reflexivity.
Qed.

Section AggregatorMore.

Context {RNG label BenchmarkDataset : Type}.
Variable randn_like : RNG -> tensor -> tensor * RNG.
Variable normalize : tensor -> tensor.
Variable sign_grad : (tensor -> fval) -> tensor -> tensor.
Variable load_clean_dataset : BenchmarkDataset -> nat -> string -> tensor * list label.

(** The pass over the batches: the estimates, none negative, the sum, and
    the count of objective evaluations. *)
Lemma batches_loop_cost model eps step_size n_steps l2_normalize :
  forall (dl : list (batch label)) lips (w : world RNG),
  exists es w',
    batch_estimates randn_like normalize sign_grad
      model eps step_size n_steps l2_normalize dl w = (Return es, w') /\
    batches_loop randn_like normalize sign_grad
      model eps step_size n_steps l2_normalize dl lips w =
    (Return (fold_left fadd es lips), w') /\
    length es = length dl /\
    Forall not_negative es /\
    evaluations w' = (evaluations w + length dl * (n_steps + 2))%nat.
Proof.
  induction dl as [|[x y] dl IH]; intros lips w.
  - exists [], w. simpl. repeat split; auto.
  - simpl. unfold bind at 1 3.
    destruct (compute_lipschitz_batch_run randn_like normalize sign_grad
                model x eps step_size n_steps l2_normalize w) as [e He].
    destruct (batch_estimate_invariant randn_like normalize sign_grad
                (fun _ => True) not_negative
                model x eps step_size n_steps l2_normalize w)
      as (e' & w1 & He' & Hsign); auto.
    { intros p _. apply mean_not_negative, objective_not_negative. }
    rewrite He in He'. injection He' as <- <-.
    rewrite He.
    destruct (IH (fadd lips e)
                (mkWorld (snd (randn_like (generator w) x))
                         (evaluations w + (n_steps + 2))))
      as (es & w' & Hes & Hloop & Hlen & Hall & Hev).
    exists (e :: es), w'. unfold bind. rewrite Hes, Hloop. simpl.
    repeat split; auto. simpl in Hev. lia.
Qed.

(** X10.  One pass over the loader costs [len(dl) * (n_steps + 2)]
    objective evaluations, also when it ends in [ZeroDivisionError] on an
    empty loader, where it costs none. *)
Theorem compute_lipschitz_evaluations model (dl : list (batch label)) eps step_size
  n_steps l2_normalize (w : world RNG) :
  evaluations (snd (compute_lipschitz randn_like normalize sign_grad
                      model dl eps step_size n_steps l2_normalize w)) =
  (evaluations w + length dl * (n_steps + 2))%nat.
Proof.
  destruct (batches_loop_cost model eps step_size n_steps l2_normalize dl (Fin 0) w)
    as (es & w' & _ & Hloop & _ & _ & Hev).
  unfold compute_lipschitz, bind. rewrite Hloop.
  destruct dl; simpl; [|exact Hev].
  simpl in Hev. exact Hev.
Qed.

(** X11.  The dataset estimate is never negative: on a loader that is not
    empty [compute_lipschitz] returns a number that is not negative, plus
    infinity or NaN. *)
Theorem compute_lipschitz_not_negative model (dl : list (batch label)) eps step_size
  n_steps l2_normalize (w : world RNG) :
  dl <> [] ->
  exists v w',
    compute_lipschitz randn_like normalize sign_grad
      model dl eps step_size n_steps l2_normalize w = (Return v, w') /\
    not_negative v.
Proof.
  intros Hne.
  destruct (batches_loop_cost model eps step_size n_steps l2_normalize dl (Fin 0) w)
    as (es & w' & _ & Hloop & _ & Hall & _).
  unfold compute_lipschitz, bind. rewrite Hloop.
  destruct dl as [|b dl]; [contradiction|].
  eexists _, _. split; [reflexivity|].
  apply fdiv_count_not_negative, fold_fadd_not_negative;
    [simpl; discriminate | exact Hall].
Qed.

(** X12.  One bad batch spoils the dataset estimate: when the estimate of
    some batch is NaN, [compute_lipschitz] returns NaN. *)
Theorem compute_lipschitz_nan_batch model (dl : list (batch label)) eps step_size
  n_steps l2_normalize (w w' : world RNG) es :
  batch_estimates randn_like normalize sign_grad
    model eps step_size n_steps l2_normalize dl w = (Return es, w') ->
  In NaN es ->
  compute_lipschitz randn_like normalize sign_grad
    model dl eps step_size n_steps l2_normalize w = (Return NaN, w').
Proof.
  intros Hes Hin.
  destruct (batches_loop_cost model eps step_size n_steps l2_normalize dl (Fin 0) w)
    as (es0 & w0 & Hes0 & Hloop & Hlen & _).
  rewrite Hes in Hes0. injection Hes0 as <- <-.
  unfold compute_lipschitz, bind. rewrite Hloop.
  destruct dl as [|b dl]; [destruct es; [contradiction | discriminate]|].
  rewrite (fold_fadd_NaN es (Fin 0) Hin). reflexivity.
Qed.

End AggregatorMore.

(** X14.  With [drop_last=True] and a batch size that is not 0, the loader
    of [benchmark_lipschitz] yields [len(dataset) // batch_size] batches of
    exactly [batch_size] samples and labels each; put end to end they are
    the first [len(dataset) // batch_size * batch_size] examples in order,
    and the examples after those are never used. *)
Theorem DataLoader_batches {label : Type} (dataset : list (sample * label))
  (batch_size : nat) :
  (0 < batch_size)%nat ->
  let dl := DataLoader dataset batch_size in
  let used := (length dataset / batch_size * batch_size)%nat in
  length dl = (length dataset / batch_size)%nat /\
  Forall (fun b => length (fst b) = batch_size /\ length (snd b) = batch_size) dl /\
  concat (map fst dl) = map fst (firstn used dataset) /\
  concat (map snd dl) = map snd (firstn used dataset).
Proof.
  intros Hpos dl used.
  assert (Hlen : length dl = (length dataset / batch_size)%nat)
    by now apply DataLoader_length.
  destruct (batch_sampler_concat batch_size dataset [] Hpos)
    as (Hall & rest & Hcat & Hrest).
  simpl in Hcat.
  set (bs := batch_sampler batch_size [] dataset) in *.
  assert (Hbs : length bs = (length dataset / batch_size)%nat).
  { rewrite <- Hlen. unfold dl, DataLoader. fold bs. now rewrite length_map. }
  assert (Hused : concat bs = firstn used dataset).
  { unfold used. rewrite <- Hbs.
    rewrite <- (concat_length_uniform batch_size bs Hall).
    rewrite Hcat at 1.
    rewrite firstn_app, firstn_all, Nat.sub_diag, firstn_O, app_nil_r.
    reflexivity. }
  split; [exact Hlen|]. split; [|split].
  - unfold dl, DataLoader. fold bs. apply Forall_map.
    eapply Forall_impl; [|exact Hall].
    intros b Hb. simpl. now rewrite !length_map.
  - rewrite <- Hused. unfold dl, DataLoader. fold bs.
    rewrite map_map. simpl. now rewrite concat_map.
  - rewrite <- Hused. unfold dl, DataLoader. fold bs.
    rewrite map_map. simpl. now rewrite concat_map.
Qed.

Section DriverMore.

Context {RNG label BenchmarkDataset : Type}.
Variable randn_like : RNG -> tensor -> tensor * RNG.
Variable normalize : tensor -> tensor.
Variable sign_grad : (tensor -> fval) -> tensor -> tensor.
Variable load_clean_dataset : BenchmarkDataset -> nat -> string -> tensor * list label.

(** What one pass of the driver's loop does to the state. *)
Lemma compute_lipschitz_outcome model (dl : list (batch label)) eps step_size
  n_steps l2_normalize (w : world RNG) :
  (dl = [] /\
   compute_lipschitz randn_like normalize sign_grad
     model dl eps step_size n_steps l2_normalize w = (Raise ZeroDivisionError, w)) \/
  (dl <> [] /\
   exists v w',
     compute_lipschitz randn_like normalize sign_grad
       model dl eps step_size n_steps l2_normalize w = (Return v, w') /\
     evaluations w' = (evaluations w + length dl * (n_steps + 2))%nat).
Proof.
  destruct dl as [|b dl]; [left; split; reflexivity|].
  right. split; [discriminate|].
  destruct (batches_loop_cost randn_like normalize sign_grad
              model eps step_size n_steps l2_normalize (b :: dl) (Fin 0) w)
    as (es & w' & _ & Hloop & _ & _ & Hev).
  unfold compute_lipschitz, bind. rewrite Hloop.
  eexists _, _. split; [reflexivity | exact Hev].
Qed.

Lemma layers_loop_evaluations (dl : list (batch label)) eps step_size n_steps
  l2_normalize :
  forall layers net lips (w : world RNG),
  evaluations (snd (layers_loop randn_like normalize sign_grad
                      dl eps step_size n_steps l2_normalize layers net lips w)) =
  (evaluations w + length layers * (length dl * (n_steps + 2)))%nat.
Proof.
  induction layers as [|l rest IH]; intros net lips w; simpl; [lia|].
  unfold bind.
  destruct (compute_lipschitz_outcome (Sequential (net ++ [l])) dl
              eps step_size n_steps l2_normalize w)
    as [[-> Hraise] | [_ (v & w' & Hrun & Hev)]].
  - rewrite Hraise. simpl. lia.
  - rewrite Hrun, IH, Hev. lia.
Qed.

(** X15.  A run of the driver on a model in evaluation mode costs
    [layers * len(dl) * (n_steps + 2)] objective evaluations: every layer
    prefix is estimated on the whole loader again.  On a model in training
    mode the check fails first and nothing is evaluated. *)
Theorem benchmark_lipschitz_evaluations (model : LipschitzModel) n_examples
  (dataset : BenchmarkDataset) data_dir batch_size eps step_size n_steps
  l2_normalize (w : world RNG) :
  let layers := get_lipschitz_layers model in
  let data := load_clean_dataset dataset n_examples data_dir in
  let dl := DataLoader (TensorDataset (fst data) (snd data)) batch_size in
  evaluations (snd (benchmark_lipschitz randn_like normalize sign_grad
                      load_clean_dataset model n_examples dataset data_dir
                      batch_size eps step_size n_steps l2_normalize w)) =
  if training model then evaluations w
  else (evaluations w + length layers * (length dl * (n_steps + 2)))%nat.
Proof.
  intros layers data dl. subst dl data layers.
  unfold benchmark_lipschitz, check_model_eval, bind.
  destruct (training model); [reflexivity|]. simpl.
  destruct (load_clean_dataset dataset n_examples data_dir) as [x y].
  apply layers_loop_evaluations.
Qed.

(** X16.  With a batch size that is not 0, the driver raises
    [ZeroDivisionError] exactly when the model is in evaluation mode, has a
    layer, and fewer examples are loaded than [batch_size]. *)
Theorem benchmark_lipschitz_raises_iff (model : LipschitzModel) n_examples
  (dataset : BenchmarkDataset) data_dir batch_size eps step_size n_steps
  l2_normalize (w : world RNG) :
  (0 < batch_size)%nat ->
  let data := load_clean_dataset dataset n_examples data_dir in
  let loaded := length (TensorDataset (fst data) (snd data)) in
  (exists w',
     benchmark_lipschitz randn_like normalize sign_grad load_clean_dataset
       model n_examples dataset data_dir batch_size
       eps step_size n_steps l2_normalize w = (Raise ZeroDivisionError, w')) <->
  (training model = false /\ get_lipschitz_layers model <> [] /\
   (loaded < batch_size)%nat).
Proof.
  intros Hpos data loaded. subst loaded data.
  unfold benchmark_lipschitz, check_model_eval, bind.
  destruct model as [[|] layers]; simpl training; simpl get_lipschitz_layers.
  { split; [intros [w' H]; discriminate H | intros [H _]; discriminate H]. }
  simpl.
  destruct (load_clean_dataset dataset n_examples data_dir) as [x y].
  simpl fst. simpl snd.
  set (ds := TensorDataset x y).
  split.
  - intros [w' Hraise]. split; [reflexivity|].
    destruct layers as [|l rest]; [discriminate Hraise|].
    split; [discriminate|].
    destruct (Nat.lt_ge_cases (length ds) batch_size) as [Hlt|Hge]; [exact Hlt|].
    exfalso.
    assert (Hne : DataLoader ds batch_size <> []).
    { intros Hnil. apply (f_equal (@length _)) in Hnil.
      rewrite DataLoader_length in Hnil by exact Hpos. simpl in Hnil.
      apply Nat.div_small_iff in Hnil; lia. }
    destruct (layers_loop_run randn_like normalize sign_grad
                (DataLoader ds batch_size) eps step_size n_steps l2_normalize
                Hne (l :: rest) [] [] w) as (out & w1 & Hrun & _).
    rewrite Hrun in Hraise. discriminate.
  - intros (_ & Hl & Hlt). destruct layers as [|l rest]; [contradiction|].
    exists w. rewrite DataLoader_empty by exact Hlt. reflexivity.
Qed.

End DriverMore.

(** ** Concrete runs of the further properties *)

Lemma ones_noise_shape (g : unit) (t : tensor) : same_shape (fst (ones_noise g t)) t.
Proof. apply same_shape_tmap. Qed.

Lemma ones_sign_shape (g : tensor -> fval) (p : tensor) : same_shape (ones_sign g p) p.
Proof. apply same_shape_tmap. Qed.



Lemma box_monotone_nonexpansive_witness :
  exists o1 o2,
    coord (box [[0]] [[1 # 2]] (1 # 4)) 0 0 = Some o1 /\
    coord (box [[5 # 8]] [[1 # 2]] (1 # 4)) 0 0 = Some o2 /\
    o1 <= o2 /\ o2 - o1 <= (5 # 8) - 0.
Proof.
  apply (box_monotone_nonexpansive [[0]] [[5 # 8]] [[1 # 2]] (1 # 4) 0 0
           0 (5 # 8) (1 # 2)); try reflexivity.
  discriminate.
Defined.

Lemma box_fl_floor_witness :
  0 <= 3 /\ exists v, coord [[2]] 0 0 = Some v /\ lower_fl Qminus v (-1) <= 3.
Proof.
  apply (box_fl_floor Qminus Qplus [[-3]] [[2]] (-1) 0 0 3).
  reflexivity.
Defined.

Lemma box_fl_empty_interval_witness :
  exists out,
    coord (box_fl Qminus Qplus [[-3]] [[1 # 2]] (-1)) 0 0 = Some out /\
    out == lower_fl Qminus (1 # 2) (-1).
Proof.
  apply (box_fl_empty_interval Qminus Qplus [[-3]] [[1 # 2]] (-1) 0 0 (-3) (1 # 2));
    reflexivity.
Defined.

Lemma batch_estimate_zero_radius_witness :
  exists r w',
    compute_lipschitz_batch ones_noise no_normalize ones_sign
      double [[1 # 2; 0]; [1; 3]] 0 (1 # 8) 3 false start = (Return r, w') /\
    (r = PInf \/ r = NaN).
Proof.
  apply (batch_estimate_zero_radius ones_noise no_normalize ones_sign
           ones_noise_shape ones_sign_shape).
  repeat constructor; discriminate.
Defined.

Lemma compute_lipschitz_not_negative_witness :
  exists v w',
    compute_lipschitz ones_noise no_normalize ones_sign
      double [([[1 # 2]], [0%nat]); ([[1]], [1%nat])] (1 # 4) (1 # 8) 1 false start =
    (Return v, w') /\
    not_negative v.
Proof.
  apply (compute_lipschitz_not_negative ones_noise no_normalize ones_sign).
  discriminate.
Defined.

Lemma compute_lipschitz_nan_batch_witness :
  compute_lipschitz ones_noise no_normalize ones_sign
    double [([[1 # 2]], [0%nat]); ([[1]], [1%nat])] (1 # 4) (1 # 8) 1 false start =
  (Return NaN, mkWorld tt 6).
Proof.
  apply (compute_lipschitz_nan_batch ones_noise no_normalize ones_sign
           double [([[1 # 2]], [0%nat]); ([[1]], [1%nat])] (1 # 4) (1 # 8) 1 false
           start (mkWorld tt 6) [Fin (256 # 128); NaN]).
  - vm_compute. reflexivity.
  - right. left. reflexivity.
Defined.

Lemma DataLoader_batches_witness :
  let dataset := [([1], 1%nat); ([2], 2%nat); ([3], 3%nat); ([4], 4%nat); ([5], 5%nat)] in
  let dl := DataLoader dataset 2 in
  length dl = 2%nat /\
  Forall (fun b => length (fst b) = 2%nat /\ length (snd b) = 2%nat) dl /\
  concat (map fst dl) = map fst (firstn 4 dataset) /\
  concat (map snd dl) = map snd (firstn 4 dataset).
Proof.
  apply (DataLoader_batches
           [([1], 1%nat); ([2], 2%nat); ([3], 3%nat); ([4], 4%nat); ([5], 5%nat)] 2).
  lia.
Defined.

Lemma benchmark_lipschitz_raises_iff_witness :
  (exists w',
     benchmark_lipschitz ones_noise no_normalize ones_sign two_images
       (mkModel false [identity]) 1 tt "data" 2 (1 # 4) (1 # 8) 1 false start =
     (Raise ZeroDivisionError, w')) <->
  (training (mkModel false [identity]) = false /\
   get_lipschitz_layers (mkModel false [identity]) <> [] /\
   (length (TensorDataset (fst (two_images tt 1 "data"))
                          (snd (two_images tt 1 "data"))) < 2)%nat).
Proof.
  apply (benchmark_lipschitz_raises_iff ones_noise no_normalize ones_sign two_images
           (mkModel false [identity]) 1 tt "data" 2 (1 # 4) (1 # 8) 1 false start).
  lia.
Defined.

